(** * dbt-rules: the C/C++ build rules (package cc)

    A shallow embedding of [RULES/cc/cc.go] and of the toolchain file of the
    same package (the [Toolchain] interface, [GccToolchain], the registry and
    [DefaultToolchain]).

    Conventions of the embedding:
    - a Go interface value that may be [nil] ([core.OutPath], [core.Path]
      used as an optional field, [Toolchain]) is an [option];
    - a call that aborts the process is a value of [Result]: [Fatal msg] for
      [core.Fatal], [Panic] for the Go runtime panic raised by a method call
      on a nil interface, [OutOfFuel] when the recursion bound of the model
      is exhausted (never a behaviour of the program);
    - a slice of [Dep] is a reference into a store of backing arrays, which
      is how two Go slices alias and how a reference cycle can be built;
    - [core.Context] is threaded explicitly. *)

From Stdlib Require Import String Ascii List Bool Arith Lia.
From stdpp Require Import base option list gmap sets strings sorting.

Local Open Scope char_scope.
Local Open Scope string_scope.
Local Open Scope list_scope.

(** ** Results of calls that may abort *)

Inductive Result (A : Type) : Type :=
| Ok (a : A)
| Fatal (msg : string)
| Panic
| OutOfFuel.

Arguments Ok {A} a.
Arguments Fatal {A} msg.
Arguments Panic {A}.
Arguments OutOfFuel {A}.

Definition rbind {A B : Type} (r : Result A) (k : A -> Result B) : Result B :=
  match r with
  | Ok a => k a
  | Fatal msg => Fatal msg
  | Panic => Panic
  | OutOfFuel => OutOfFuel
  end.

Notation "'let!' x ':=' e 'in' k" := (rbind e (fun x => k))
  (at level 10, x pattern, e at level 100, k at level 200).

Definition isOk {A : Type} (r : Result A) : bool :=
  match r with Ok _ => true | _ => false end.

(** ** Paths *)

Inductive PathRoot : Type := SourceRoot | BuildRoot | GlobalRoot.

Record Path : Type := mkPath { root : PathRoot; rel : string }.

Global Instance PathRoot_eq_dec : EqDecision PathRoot.
Proof. solve_decision. Defined.

Global Instance Path_eq_dec : EqDecision Path.
Proof. solve_decision. Defined.

Definition SourcePath (r : string) : Path := mkPath SourceRoot r.
Definition NewOutPath (r : string) : Path := mkPath BuildRoot r.
Definition NewGlobalPath (r : string) : Path := mkPath GlobalRoot r.

Definition slash : ascii := "/".
Definition dot : ascii := ".".

(** The extension of the last element of a path, Go's [path.Ext], computed
    on the reversed characters: [Some n] when the last dot of the last
    element is followed by [n] characters. *)
Fixpoint extLenRev (rev_chars : list ascii) (n : nat) : option nat :=
  match rev_chars with
  | [] => None
  | c :: rest =>
      if Ascii.eqb c dot then Some n
      else if Ascii.eqb c slash then None
      else extLenRev rest (S n)
  end.

Definition trimExt (s : string) : string :=
  let chars := list_ascii_of_string s in
  match extLenRev (rev chars) 0 with
  | Some n => string_of_list_ascii (firstn (length chars - S n) chars)
  | None => s
  end.

(** What the host engine fixes for one run: the two directories every
    relative path is rendered against, and [strconv.Quote], the quoting that
    [%q] applies to a string (it belongs to the Go standard library and is
    kept abstract). *)
Class Host : Type := {
  sourceDir : string;
  buildDir : string;
  quote : string -> string
}.

Section Paths.
Context `{Host}.

(** Modelled from the spec: package [core] is not part of the sources at
    hand. [Absolute] renders a path against its root directory, [Relative]
    is the path below that root. *)
Definition Absolute (p : Path) : string :=
  match root p with
  | SourceRoot => sourceDir +:+ String slash (rel p)
  | BuildRoot => buildDir +:+ String slash (rel p)
  | GlobalRoot => rel p
  end.

Definition Relative (p : Path) : string := rel p.

(** Modelled from the spec: [%q] and [%s] print a path through its
    [String] method, the absolute rendering. *)
Definition PathString (p : Path) : string := Absolute p.
End Paths.

(** Modelled from the spec: [WithPrefix] yields the output path whose
    relative part is the prefix followed by the relative part of the
    receiver (a base [foo.a] prefixed with [arm/] is [arm/foo.a]). *)
Definition WithPrefix (prefix : string) (p : Path) : Path :=
  mkPath BuildRoot (prefix +:+ rel p).

(** Modelled from the spec: [WithExt] rewrites the extension of an output
    path. *)
Definition WithExt (ext : string) (p : Path) : Path :=
  mkPath BuildRoot (trimExt (rel p) +:+ String dot ext).

(** A nil [core.OutPath] has no methods to call. *)
Definition deref {A B : Type} (o : option A) (f : A -> B) : Result B :=
  match o with
  | Some a => Ok (f a)
  | None => Panic
  end.

(** ** Formatting *)

Inductive Arg : Type :=
| StrArg (s : string)
| PathArg (p : Path).

Section Format.
Context `{Host}.

Definition argString (a : Arg) : string :=
  match a with
  | StrArg s => s
  | PathArg p => PathString p
  end.

(** [fmt.Sprintf] restricted to the verbs the package uses, [%q] and
    [%s]; an operand that is missing is reported the way [fmt] does. *)
Fixpoint Sprintf (format : string) (args : list Arg) : string :=
  match format with
  | EmptyString => EmptyString
  | String c rest =>
      if Ascii.eqb c "%" then
        match rest with
        | EmptyString => "%!(NOVERB)"
        | String v rest' =>
            match args with
            | a :: args' =>
                (if Ascii.eqb v "q" then quote (argString a) else argString a)
                  +:+ Sprintf rest' args'
            | [] => String "%" (String "!" (String v "(MISSING)")) +:+ Sprintf rest' []
            end
        end
      else String c (Sprintf rest args)
  end.

(** [strings.Join]. *)
Fixpoint Join (elems : list string) (sep : string) : string :=
  match elems with
  | [] => EmptyString
  | [e] => e
  | e :: rest => e +:+ sep +:+ Join rest sep
  end.

(** [joinQuoted]: every path quoted and followed by one space. *)
Fixpoint joinQuotedFrom (b : string) (paths : list Path) : string :=
  match paths with
  | [] => b
  | p :: rest => joinQuotedFrom (b +:+ Sprintf "%q " [PathArg p]) rest
  end.

Definition joinQuoted (paths : list Path) : string :=
  joinQuotedFrom EmptyString paths.
End Format.

(** ** The toolchain interface *)

(** A slice of [Dep]: nil, or the address of its backing array. *)
Inductive DepSlice : Type :=
| nilDeps
| depsAt (addr : nat).

(** The Go interface [Toolchain]. [tcAccepts] is the optional method
    [Accepts], found by a type assertion in [ToolchainAccepts]: [None] when
    the dynamic type does not have it. *)
Class Toolchain (T : Type) : Type := {
  tcName : T -> string;
  tcObjectFile : T -> Path -> Path -> list string -> list Path -> Path -> string;
  tcStaticLibrary : T -> Path -> list Path -> string;
  tcSharedLibrary : T -> Path -> list Path -> string;
  tcBinary : T -> Path -> list Path -> list Path -> list Path -> list string -> option Path -> string;
  tcBlobObject : T -> Path -> Path -> string;
  tcRawBinary : T -> Path -> Path -> string;
  tcStdDeps : T -> DepSlice;
  tcScript : T -> option Path;
  tcAccepts : T -> option (T -> bool)
}.

(** ToolchainAccepts reports whether the parent toolchain accepts libraries
    built with the child toolchain. *)
Definition ToolchainAccepts {T : Type} `{Toolchain T} (parent child : T) : bool :=
  if String.eqb (tcName parent) (tcName child) then true
  else match tcAccepts parent with
       | Some accepts => accepts child
       | None => false
       end.

(** ** Build units *)

Record ObjectFile (T : Type) : Type := mkObjectFile {
  obj_Src : Path;
  obj_Includes : list Path;
  obj_Flags : list string;
  obj_Toolchain : option T
}.

Record BlobObject (T : Type) : Type := mkBlobObject {
  blob_In : Path;
  blob_Toolchain : option T
}.

Record Library (T : Type) : Type := mkLibrary {
  lib_Out : option Path;
  lib_Srcs : list Path;
  lib_Blobs : list Path;
  lib_Objs : list Path;
  lib_Includes : list Path;
  lib_CompilerFlags : list string;
  lib_Deps : DepSlice;
  lib_Shared : bool;
  lib_AlwaysLink : bool;
  lib_Toolchain : option T
}.

Record multipleToolchainLibrary (T : Type) : Type := mkMultipleToolchainLibrary {
  mtl_baseOut : option Path;
  mtl_lib : Library T
}.

Record Binary (T : Type) : Type := mkBinary {
  bin_Out : option Path;
  bin_Srcs : list Path;
  bin_CompilerFlags : list string;
  bin_LinkerFlags : list string;
  bin_Deps : DepSlice;
  bin_Script : option Path;
  bin_Toolchain : option T
}.

Arguments mkObjectFile {T}.
Arguments obj_Src {T}.
Arguments obj_Includes {T}.
Arguments obj_Flags {T}.
Arguments obj_Toolchain {T}.
Arguments mkBlobObject {T}.
Arguments blob_In {T}.
Arguments blob_Toolchain {T}.
Arguments mkLibrary {T}.
Arguments lib_Out {T}.
Arguments lib_Srcs {T}.
Arguments lib_Blobs {T}.
Arguments lib_Objs {T}.
Arguments lib_Includes {T}.
Arguments lib_CompilerFlags {T}.
Arguments lib_Deps {T}.
Arguments lib_Shared {T}.
Arguments lib_AlwaysLink {T}.
Arguments lib_Toolchain {T}.
Arguments mkMultipleToolchainLibrary {T}.
Arguments mtl_baseOut {T}.
Arguments mtl_lib {T}.
Arguments mkBinary {T}.
Arguments bin_Out {T}.
Arguments bin_Srcs {T}.
Arguments bin_CompilerFlags {T}.
Arguments bin_LinkerFlags {T}.
Arguments bin_Deps {T}.
Arguments bin_Script {T}.
Arguments bin_Toolchain {T}.

(** The two implementations of the interface [Dep] in the package. *)
Inductive Dep (T : Type) : Type :=
| DepLibrary (lib : Library T)
| DepMultipleToolchains (mtl : multipleToolchainLibrary T).

Arguments DepLibrary {T}.
Arguments DepMultipleToolchains {T}.

(** The store of backing arrays of [[]Dep] slices. *)
Abbreviation DepStore T := (list (list (Dep T))).

Definition depsOf {T : Type} (store : DepStore T) (s : DepSlice) : list (Dep T) :=
  match s with
  | nilDeps => []
  | depsAt addr => default [] (store !! addr)
  end.

(** ** The build engine's context *)

Record BuildStep : Type := mkBuildStep {
  step_Out : Path;
  step_Depfile : option Path;
  step_In : option Path;
  step_Ins : list Path;
  step_Cmd : string;
  step_Descr : string
}.

(** Modelled from the spec: the engine's context, which owns the set of
    absolute paths already built in this process and receives the build
    steps; the trace labels nested diagnostics. *)
Record Context : Type := mkContext {
  ctx_built : gset string;
  ctx_steps : list BuildStep;
  ctx_trace : list string
}.

(** Modelled from the spec: registers a build step. *)
Definition AddBuildStep (step : BuildStep) (ctx : Context) : Result Context :=
  Ok (mkContext (ctx_built ctx) (ctx_steps ctx ++ [step]) (ctx_trace ctx)).

(** Modelled from the spec: reports whether an absolute output path has
    already been built, registering it on the first query. ([Library.build]
    puts the library itself into the closure whose members it builds, so
    the path has to be registered by the query, before any step is added.) *)
Definition Built (path : string) (ctx : Context) : bool * Context :=
  (bool_decide (path ∈ ctx_built ctx),
   mkContext ({[path]} ∪ ctx_built ctx) (ctx_steps ctx) (ctx_trace ctx)).

(** Modelled from the spec: runs [f] with one more label on the trace. *)
Definition WithTrace (id : string) (f : Context -> Result Context) (ctx : Context)
  : Result Context :=
  let! ctx' := f (mkContext (ctx_built ctx) (ctx_steps ctx) (id :: ctx_trace ctx)) in
  Ok (mkContext (ctx_built ctx') (ctx_steps ctx') (ctx_trace ctx)).

(** ** The gcc toolchain *)

Record GccToolchain : Type := mkGccToolchain {
  gcc_Ar : Path;
  gcc_As : Path;
  gcc_Cc : Path;
  gcc_Cpp : Path;
  gcc_Cxx : Path;
  gcc_Objcopy : Path;
  gcc_Ld : Path;
  gcc_Includes : list Path;
  gcc_Deps : DepSlice;
  gcc_LinkerScript : option Path;
  gcc_CompilerFlags : list string;
  gcc_LinkerFlags : list string;
  gcc_ToolchainName : string;
  gcc_ArchName : string;
  gcc_TargetName : string;
  (* A list of toolchain names that libraries can be built with instead of
     our toolchain. *)
  gcc_CompatibleWith : list string
}.

Inductive Architecture : Type :=
| ArchitectureX86_64
| ArchitectureAArch64
| ArchitectureUnknown.

Section Gcc.
Context `{Host}.

Definition Gcc_Name (gcc : GccToolchain) : string := gcc_ToolchainName gcc.

(** The loop of [Accepts], on the name of the other toolchain. *)
Fixpoint compatibleWithName (cws : list string) (name : string) : bool :=
  match cws with
  | [] => false
  | cw :: rest => if String.eqb cw name then true else compatibleWithName rest name
  end.

Definition Gcc_Accepts (gcc tc : GccToolchain) : bool :=
  compatibleWithName (gcc_CompatibleWith gcc) (Gcc_Name tc).

Definition Gcc_Architecture (gcc : GccToolchain) : Architecture :=
  if String.eqb (gcc_ArchName gcc) "i386" || String.eqb (gcc_ArchName gcc) "x86_64"
  then ArchitectureX86_64
  else if String.eqb (gcc_ArchName gcc) "aarch64" then ArchitectureAArch64
  else ArchitectureUnknown.

Fixpoint Gcc_FreestandingFrom (lfs : list string) : bool :=
  match lfs with
  | [] => false
  | lf :: rest => if String.eqb lf "-ffreestanding" then true else Gcc_FreestandingFrom rest
  end.

Definition Gcc_Freestanding (gcc : GccToolchain) : bool :=
  Gcc_FreestandingFrom (gcc_LinkerFlags gcc).

Definition Gcc_NewWithStdLib (gcc : GccToolchain) (includes : list Path)
    (deps : DepSlice) (linkerScript : option Path) (toolchainName : string)
  : GccToolchain :=
  mkGccToolchain (gcc_Ar gcc) (gcc_As gcc) (gcc_Cc gcc) (gcc_Cpp gcc) (gcc_Cxx gcc)
    (gcc_Objcopy gcc) (gcc_Ld gcc) includes deps linkerScript
    (gcc_CompilerFlags gcc) (gcc_LinkerFlags gcc) toolchainName
    (gcc_ArchName gcc) (gcc_TargetName gcc) (gcc_CompatibleWith gcc).

Fixpoint writeEach (format : string) (b : string) (paths : list Path) : string :=
  match paths with
  | [] => b
  | p :: rest => writeEach format (b +:+ Sprintf format [PathArg p]) rest
  end.

(** ObjectFile generates a compile command. *)
Definition Gcc_ObjectFile (gcc : GccToolchain) (out depfile : Path)
    (flags : list string) (includes : list Path) (src : Path) : string :=
  let includesStr := writeEach "-I%q " EmptyString includes in
  let includesStr := writeEach "-isystem %q " includesStr (gcc_Includes gcc) in
  Sprintf "%q -pipe -c -o %q -MD -MF %q %s %s %q"
    [PathArg (gcc_Cxx gcc); PathArg out; PathArg depfile;
     StrArg (Join (gcc_CompilerFlags gcc ++ flags) " ");
     StrArg includesStr; PathArg src].

(** StaticLibrary generates the command to build a static library: the
    target is deleted first, because ar updates an existing archive. *)
Definition Gcc_StaticLibrary (gcc : GccToolchain) (out : Path) (objs : list Path)
  : string :=
  Sprintf "rm %q 2>/dev/null ; %q rcs %q %s"
    [PathArg out; PathArg (gcc_Ar gcc); PathArg out; StrArg (joinQuoted objs)].

(** SharedLibrary generates the command to build a shared library. *)
Definition Gcc_SharedLibrary (gcc : GccToolchain) (out : Path) (objs : list Path)
  : string :=
  Sprintf "%q -pipe -shared -o %q %s"
    [PathArg (gcc_Cxx gcc); PathArg out; StrArg (joinQuoted objs)].

(** Binary generates the command to build an executable. *)
Definition Gcc_Binary (gcc : GccToolchain) (out : Path)
    (objs alwaysLinkLibs libs : list Path) (flags : list string)
    (script : option Path) : string :=
  let flags := gcc_LinkerFlags gcc ++ flags in
  let flags :=
    match script with
    | Some s => flags ++ ["-T"; Sprintf "%q" [PathArg s]]
    | None =>
        match gcc_LinkerScript gcc with
        | Some s => flags ++ ["-T"; Sprintf "%q" [PathArg s]]
        | None => flags
        end
    end in
  Sprintf "%q -pipe -o %q %s -Wl,-whole-archive %s -Wl,-no-whole-archive %s %s"
    [PathArg (gcc_Cxx gcc); PathArg out; StrArg (joinQuoted objs);
     StrArg (joinQuoted alwaysLinkLibs); StrArg (joinQuoted libs);
     StrArg (Join flags " ")].

(** BlobObject creates an object file from any binary blob of data. *)
Definition Gcc_BlobObject (gcc : GccToolchain) (out src : Path) : string :=
  Sprintf "%q -r -b binary -o %q %q" [PathArg (gcc_Ld gcc); PathArg out; PathArg src].

(** RawBinary strips ELF metadata to create a raw binary image. *)
Definition Gcc_RawBinary (gcc : GccToolchain) (out elfSrc : Path) : string :=
  Sprintf "%q -O binary %q %q" [PathArg (gcc_Objcopy gcc); PathArg elfSrc; PathArg out].

Definition Gcc_StdDeps (gcc : GccToolchain) : DepSlice := gcc_Deps gcc.
Definition Gcc_Script (gcc : GccToolchain) : option Path := gcc_LinkerScript gcc.

(** [GccToolchain] implements [Toolchain], and has the method [Accepts]. *)
#[export] Instance GccToolchain_Toolchain : Toolchain GccToolchain := {
  tcName := Gcc_Name;
  tcObjectFile := Gcc_ObjectFile;
  tcStaticLibrary := Gcc_StaticLibrary;
  tcSharedLibrary := Gcc_SharedLibrary;
  tcBinary := Gcc_Binary;
  tcBlobObject := Gcc_BlobObject;
  tcRawBinary := Gcc_RawBinary;
  tcStdDeps := Gcc_StdDeps;
  tcScript := Gcc_Script;
  tcAccepts := fun gcc => Some (Gcc_Accepts gcc)
}.
End Gcc.

(** ** The registry, the dependency collector and the build entry points *)

Definition string_le (a b : string) : Prop := String.leb a b = true.

Global Instance string_le_dec (a b : string) : Decision (string_le a b).
Proof. unfold string_le. solve_decision. Defined.

(** The state of one process: the registry [toolchains], the value of the
    flag [cc-toolchain], and the backing arrays of the [Deps] slices. *)
Class Process (T : Type) : Type := {
  toolchains : gmap string T;
  defaultToolchainFlag : string;
  store : DepStore T
}.

Section Rules.
Context {T : Type} `{Toolchain T} `{Host} `{Process T}.

Definition RegisterToolchain (toolchain : T) (registry : gmap string T)
  : Result (gmap string T) :=
  match registry !! tcName toolchain with
  | Some _ =>
      Fatal (Sprintf "A toolchain with name %s has already been registered"
               [StrArg (tcName toolchain)])
  | None => Ok (<[tcName toolchain := toolchain]> registry)
  end.

(** DefaultToolchain returns the default toolchain: the one registered
    under the value of the cc-toolchain flag. *)
Definition DefaultToolchain : Result T :=
  match toolchains !! defaultToolchainFlag with
  | Some toolchain => Ok toolchain
  | None =>
      let all := (fun kv : string * T => Sprintf "%q" [StrArg kv.1]) <$> map_to_list toolchains in
      let all := merge_sort string_le all in
      Fatal (Sprintf "No registered toolchain %q. Registered toolchains: %s"
               [StrArg defaultToolchainFlag; StrArg (Join all ", ")])
  end.

Definition toolchainOrDefault (toolchain : option T) : Result T :=
  match toolchain with
  | None => DefaultToolchain
  | Some toolchain => Ok toolchain
  end.

Definition Library_MultipleToolchains (lib : Library T)
  : Result (multipleToolchainLibrary T) :=
  match lib_Out lib with
  | None => Fatal "Out field is required for cc.Library"
  | Some _ => Ok (mkMultipleToolchainLibrary (lib_Out lib) lib)
  end.

Definition setOut (lib : Library T) (out : option Path) : Library T :=
  mkLibrary out (lib_Srcs lib) (lib_Blobs lib) (lib_Objs lib) (lib_Includes lib)
    (lib_CompilerFlags lib) (lib_Deps lib) (lib_Shared lib) (lib_AlwaysLink lib)
    (lib_Toolchain lib).

Definition setToolchain (lib : Library T) (toolchain : option T) : Library T :=
  mkLibrary (lib_Out lib) (lib_Srcs lib) (lib_Blobs lib) (lib_Objs lib)
    (lib_Includes lib) (lib_CompilerFlags lib) (lib_Deps lib) (lib_Shared lib)
    (lib_AlwaysLink lib) toolchain.

(** CcLibrary for a multi-toolchain-library returns a toolchain-specific
    copy of the registered library. *)
Definition mtl_CcLibrary (mtl : multipleToolchainLibrary T) (toolchain : option T)
  : Result (Library T) :=
  let! toolchain := toolchainOrDefault toolchain in
  let tcLib := mtl_lib mtl in
  let! default := DefaultToolchain in
  let! tcLib :=
    if negb (String.eqb (tcName toolchain) (tcName default)) then
      let! out := deref (mtl_baseOut mtl) (WithPrefix (tcName toolchain +:+ "/")) in
      Ok (setOut tcLib (Some out))
    else Ok tcLib in
  Ok (setToolchain tcLib (Some toolchain)).

(** CcLibrary for Library returns the library itself. *)
Definition Library_CcLibrary (lib : Library T) (toolchain : option T)
  : Result (Library T) :=
  let! toolchain := toolchainOrDefault toolchain in
  let! own := toolchainOrDefault (lib_Toolchain lib) in
  if negb (ToolchainAccepts toolchain own) then
    let! relative := deref (lib_Out lib) Relative in
    Fatal (Sprintf "Library %s does not support toolchain %s"
             [StrArg relative; StrArg (tcName toolchain)])
  else Ok lib.

Definition Dep_CcLibrary (dep : Dep T) (toolchain : option T) : Result (Library T) :=
  match dep with
  | DepLibrary lib => Library_CcLibrary lib toolchain
  | DepMultipleToolchains mtl => mtl_CcLibrary mtl toolchain
  end.

(** The loop of [collectDepsWithToolchainRec] over [deps]; [recurse] is the
    recursive call on [lib.Deps]. The map [visited] is shared by all the
    calls, so it is passed in and handed back. *)
Fixpoint collectLoop
    (recurse : list (Dep T) -> gset string -> Result (list (Library T) * gset string))
    (toolchain : option T) (deps : list (Dep T)) (flatDeps : list (Library T))
    (visited : gset string) : Result (list (Library T) * gset string) :=
  match deps with
  | [] => Ok (flatDeps, visited)
  | dep :: rest =>
      let! lib := Dep_CcLibrary dep toolchain in
      let! libPath := deref (lib_Out lib) Absolute in
      if bool_decide (libPath ∈ visited) then
        collectLoop recurse toolchain rest flatDeps visited
      else
        let visited := {[libPath]} ∪ visited in
        let flatDeps := flatDeps ++ [lib] in
        let! sub := recurse (depsOf store (lib_Deps lib)) visited in
        collectLoop recurse toolchain rest (flatDeps ++ sub.1) sub.2
  end.

(** [fuel] bounds the depth of the recursion into [lib.Deps]. *)
Fixpoint collectDepsWithToolchainRec (fuel : nat) (toolchain : option T)
    (deps : list (Dep T)) (visited : gset string)
  : Result (list (Library T) * gset string) :=
  match fuel with
  | O => OutOfFuel
  | S fuel' =>
      collectLoop (collectDepsWithToolchainRec fuel' toolchain) toolchain deps [] visited
  end.

Definition collectDepsWithToolchain (fuel : nat) (toolchain : option T)
    (deps : list (Dep T)) : Result (list (Library T)) :=
  let! flatDeps := collectDepsWithToolchainRec fuel toolchain deps ∅ in
  Ok flatDeps.1.

(** *** Object files and blobs *)

Definition ObjectFile_out (obj : ObjectFile T) : Result Path :=
  let! toolchain := toolchainOrDefault (obj_Toolchain obj) in
  Ok (WithExt "o" (WithPrefix (tcName toolchain +:+ "/") (obj_Src obj))).

(** Build an ObjectFile. *)
Definition ObjectFile_Build (obj : ObjectFile T) (ctx : Context) : Result Context :=
  let! toolchain := toolchainOrDefault (obj_Toolchain obj) in
  let! out := ObjectFile_out obj in
  let depfile := WithExt "d" out in
  let cmd := tcObjectFile toolchain out depfile (obj_Flags obj) (obj_Includes obj)
               (obj_Src obj) in
  WithTrace ("obj:" +:+ Relative out)
    (AddBuildStep
       (mkBuildStep out (Some depfile) (Some (obj_Src obj)) [] cmd
          (Sprintf "CC (toolchain: %s) %s"
             [StrArg (tcName toolchain); StrArg (Relative out)])))
    ctx.

Definition BlobObject_out (blob : BlobObject T) : Result Path :=
  let! toolchain := toolchainOrDefault (blob_Toolchain blob) in
  Ok (WithExt "blob.o" (WithPrefix (tcName toolchain +:+ "/") (blob_In blob))).

(** Build a BlobObject. The command is asked of the field
    [blob.Toolchain] itself, not of the local [toolchain]. *)
Definition BlobObject_Build (blob : BlobObject T) (ctx : Context) : Result Context :=
  let! out := BlobObject_out blob in
  WithTrace ("blob:" +:+ Relative out)
    (fun ctx =>
       let! toolchain := toolchainOrDefault (blob_Toolchain blob) in
       let! cmd := deref (blob_Toolchain blob)
                     (fun tc => tcBlobObject tc out (blob_In blob)) in
       AddBuildStep
         (mkBuildStep out None (Some (blob_In blob)) [] cmd
            (Sprintf "BLOB (toolchain: %s) %s"
               [StrArg (tcName toolchain); StrArg (Relative out)]))
         ctx)
    ctx.

Fixpoint includesOf (includes : list Path) (deps : list (Library T)) : list Path :=
  match deps with
  | [] => includes
  | dep :: rest => includesOf (includes ++ lib_Includes dep) rest
  end.

Fixpoint compileEach (includes : list Path) (flags : list string)
    (toolchain : option T) (srcs : list Path) (objs : list Path) (ctx : Context)
  : Result (list Path * Context) :=
  match srcs with
  | [] => Ok (objs, ctx)
  | src :: rest =>
      let obj := mkObjectFile src includes flags toolchain in
      let! ctx := ObjectFile_Build obj ctx in
      let! out := ObjectFile_out obj in
      compileEach includes flags toolchain rest (objs ++ [out]) ctx
  end.

Definition compileSources (ctx : Context) (srcs : list Path) (flags : list string)
    (deps : list (Library T)) (toolchain : option T)
  : Result (list Path * Context) :=
  let includes := includesOf [SourcePath EmptyString] deps in
  compileEach includes flags toolchain srcs [] ctx.

(** *** Libraries *)

(** The loop [for _, d := range deps { d.Build(ctx) }]. *)
Fixpoint buildEach (Build : Library T -> Context -> Result Context)
    (deps : list (Library T)) (ctx : Context) : Result Context :=
  match deps with
  | [] => Ok ctx
  | d :: rest => let! ctx := Build d ctx in buildEach Build rest ctx
  end.

Fixpoint buildBlobs (toolchain : option T) (blobs : list Path) (objs : list Path)
    (ctx : Context) : Result (list Path * Context) :=
  match blobs with
  | [] => Ok (objs, ctx)
  | blob :: rest =>
      let blobObject := mkBlobObject blob toolchain in
      let! ctx := BlobObject_Build blobObject ctx in
      let! out := BlobObject_out blobObject in
      buildBlobs toolchain rest (objs ++ [out]) ctx
  end.

(** [Library.Build], given the body [build] of the unit. The label of the
    trace is computed from [lib.Out] before [build] is entered. *)
Definition Library_Build_with (build : Library T -> Context -> Result Context)
    (lib : Library T) (ctx : Context) : Result Context :=
  let! relative := deref (lib_Out lib) Relative in
  WithTrace ("lib:" +:+ relative) (build lib) ctx.

(** [Library.build]. [fuel] bounds the depth of the mutual recursion with
    [Library.Build] on the dependencies, and is handed to the collector. *)
Fixpoint Library_build (fuel : nat) (lib : Library T) (ctx : Context)
  : Result Context :=
  match fuel with
  | O => OutOfFuel
  | S fuel' =>
      match lib_Out lib with
      | None => Fatal "Out field is required for cc.Library"
      | Some out =>
          let (built, ctx) := Built (Absolute out) ctx in
          if built then Ok ctx
          else
            let! toolchain := toolchainOrDefault (lib_Toolchain lib) in
            let! deps := collectDepsWithToolchain fuel (Some toolchain)
                           (depsOf store (tcStdDeps toolchain) ++ [DepLibrary lib]) in
            let! ctx := buildEach (Library_Build_with (Library_build fuel')) deps ctx in
            let! compiled := compileSources ctx (lib_Srcs lib) (lib_CompilerFlags lib)
                               deps (Some toolchain) in
            let objs := compiled.1 ++ lib_Objs lib in
            let! blobs := buildBlobs (Some toolchain) (lib_Blobs lib) objs compiled.2 in
            let objs := blobs.1 in
            let ctx := blobs.2 in
            let cmd :=
              if lib_Shared lib then tcSharedLibrary toolchain out objs
              else tcStaticLibrary toolchain out objs in
            let descr :=
              if lib_Shared lib
              then Sprintf "LD (toolchain: %s) %s"
                     [StrArg (tcName toolchain); StrArg (Relative out)]
              else Sprintf "AR (toolchain: %s) %s"
                     [StrArg (tcName toolchain); StrArg (Relative out)] in
            AddBuildStep (mkBuildStep out None None objs cmd descr) ctx
      end
  end.

Definition Library_Build (fuel : nat) (lib : Library T) (ctx : Context)
  : Result Context :=
  Library_Build_with (Library_build fuel) lib ctx.

(** Build for a multi-toolchain-library builds the library with the
    default toolchain. *)
Definition mtl_Build (fuel : nat) (mtl : multipleToolchainLibrary T) (ctx : Context)
  : Result Context :=
  let! default := DefaultToolchain in
  let! lib := mtl_CcLibrary mtl (Some default) in
  Library_Build fuel lib ctx.

(** *** Binaries *)

(** The loop of [Binary.build] that extends [ins] and splits the closure
    into [alwaysLinkLibs] and [otherLibs]. Every member of the closure has
    an output path: the collector has called [Absolute] on it. *)
Fixpoint partitionLibs (deps : list (Library T)) (ins alwaysLinkLibs otherLibs : list Path)
  : Result (list Path * list Path * list Path) :=
  match deps with
  | [] => Ok (ins, alwaysLinkLibs, otherLibs)
  | dep :: rest =>
      let! out := deref (lib_Out dep) id in
      let ins := ins ++ [out] in
      if lib_AlwaysLink dep
      then partitionLibs rest ins (alwaysLinkLibs ++ [out]) otherLibs
      else partitionLibs rest ins alwaysLinkLibs (otherLibs ++ [out])
  end.

Definition Binary_build (fuel : nat) (bin : Binary T) (ctx : Context)
  : Result Context :=
  let! toolchain := toolchainOrDefault (bin_Toolchain bin) in
  let! deps := collectDepsWithToolchain fuel (Some toolchain)
                 (depsOf store (bin_Deps bin) ++ depsOf store (tcStdDeps toolchain)) in
  let! ctx := buildEach (Library_Build fuel) deps ctx in
  let! compiled := compileSources ctx (bin_Srcs bin) (bin_CompilerFlags bin) deps
                     (Some toolchain) in
  let objs := compiled.1 in
  let ctx := compiled.2 in
  let! parts := partitionLibs deps objs [] [] in
  let ins := parts.1.1 in
  let alwaysLinkLibs := parts.1.2 in
  let otherLibs := parts.2 in
  let ins :=
    match bin_Script bin with
    | Some script => ins ++ [script]
    | None =>
        match tcScript toolchain with
        | Some script => ins ++ [script]
        | None => ins
        end
    end in
  let! out := deref (bin_Out bin) id in
  let cmd := tcBinary toolchain out objs alwaysLinkLibs otherLibs (bin_LinkerFlags bin)
               (bin_Script bin) in
  AddBuildStep
    (mkBuildStep out None None ins cmd
       (Sprintf "LD (toolchain: %s) %s"
          [StrArg (tcName toolchain); StrArg (Relative out)]))
    ctx.

(** Build a Binary. *)
Definition Binary_Build (fuel : nat) (bin : Binary T) (ctx : Context)
  : Result Context :=
  match bin_Out bin with
  | None => Fatal "Out field is required for cc.Binary"
  | Some out => WithTrace ("bin:" +:+ Relative out) (Binary_build fuel bin) ctx
  end.

Definition Binary_Run (bin : Binary T) (args : list string) : string :=
  let quotedArgs := (fun arg => Sprintf "%q" [StrArg arg]) <$> args in
  match bin_Out bin with
  | Some out => Sprintf "%q %s" [PathArg out; StrArg (Join quotedArgs " ")]
  | None => Sprintf "%s %s" [StrArg "%!q(<nil>)"; StrArg (Join quotedArgs " ")]
  end.
End Rules.

(** ** Concrete toolchains and dependency graphs *)

Module Examples.
(** A stand-in for [strconv.Quote] on strings that need no escaping. *)
Definition quoteAscii (s : string) : string :=
  String (Ascii.ascii_of_nat 34) (s +:+ String (Ascii.ascii_of_nat 34) EmptyString).

#[export] Instance host : Host :=
  {| sourceDir := "/src"; buildDir := "/out"; quote := quoteAscii |}.

Definition gccNamed (name : string) (compatibleWith : list string) : GccToolchain :=
  mkGccToolchain (NewGlobalPath "ar") (NewGlobalPath "as") (NewGlobalPath "gcc")
    (NewGlobalPath "gcc -E") (NewGlobalPath "g++") (NewGlobalPath "objcopy")
    (NewGlobalPath "ld") [] nilDeps None
    ["-std=c++14"; "-O3"; "-fdiagnostics-color=always"]
    ["-fdiagnostics-color=always"] name "x86_64" EmptyString compatibleWith.

Definition NativeGcc : GccToolchain := gccNamed "native-gcc" [].
Definition arm : GccToolchain := gccNamed "arm" [].
(** A testing toolchain that accepts libraries built with [NativeGcc]. *)
Definition testing : GccToolchain := gccNamed "testing" ["native-gcc"].

#[export] Instance gcc : Toolchain GccToolchain := GccToolchain_Toolchain.

Definition registry : gmap string GccToolchain :=
  <["testing" := testing]> (<["arm" := arm]> (<["native-gcc" := NativeGcc]> ∅)).

Definition library (out : string) (deps : DepSlice) (alwaysLink : bool)
    (toolchain : option GccToolchain) : Library GccToolchain :=
  mkLibrary (Some (NewOutPath out)) [] [] [] [] [] deps false alwaysLink toolchain.

(** A diamond: [top] depends on [left] and [right], both on [base]. *)
Definition base := library "base.a" nilDeps false None.
Definition left := library "left.a" (depsAt 0) true None.
Definition right := library "right.a" (depsAt 0) false None.
Definition top := library "top.a" (depsAt 1) false None.

(** A cycle through shared backing arrays: [ping] depends on [pong] and
    [pong] on [ping]. *)
Definition ping := library "ping.a" (depsAt 3) false None.
Definition pong := library "pong.a" (depsAt 2) false None.

Definition arrays : DepStore GccToolchain :=
  [ [DepLibrary base];
    [DepLibrary left; DepLibrary right];
    [DepLibrary ping];
    [DepLibrary pong] ].

#[export] Instance process : Process GccToolchain :=
  {| toolchains := registry; defaultToolchainFlag := "native-gcc"; store := arrays |}.

Definition emptyContext : Context := mkContext ∅ [] [].

(** The library of the specification's example, and its wrapper. *)
Definition foo := library "foo.a" nilDeps false None.
Definition fooWrapped : multipleToolchainLibrary GccToolchain :=
  mkMultipleToolchainLibrary (lib_Out foo) foo.

(** A binary on the diamond. *)
Definition app : Binary GccToolchain :=
  mkBinary (Some (NewOutPath "app")) [SourcePath "main.cc"] [] [] (depsAt 1) None None.

(** A library pinned to [arm], and its multi-toolchain wrapper. *)
Definition pinned := library "pinned.a" nilDeps false (Some arm).
Definition wrapped : multipleToolchainLibrary GccToolchain :=
  mkMultipleToolchainLibrary (lib_Out pinned) pinned.
End Examples.

(** ** Definitions used to state the properties *)

Section Statements.
Context {T : Type} `{Toolchain T} `{Host} `{Process T}.

(** Every path quoted by [%q] and followed by one space, in order. *)
Definition quotedWords (paths : list Path) : string :=
  foldr (fun p rest => quote (PathString p) +:+ " " +:+ rest)
    EmptyString paths.

(** The output paths of a list of libraries. *)
Definition outsOf (libs : list (Library T)) : list Path := omap lib_Out libs.

(** The key under which the collector records a library. *)
Definition keyOf (lib : Library T) : option string :=
  Absolute <$> lib_Out lib.

Definition keysOf (libs : list (Library T)) : list string := omap keyOf libs.

(** The depth-first traversal as the specification words it: for each
    reference in order, resolve it under the toolchain; if the key of the
    resolved Library was seen, skip it and its subtree; if not, the Library
    comes next in the result, followed by what the traversal of its own
    references discovers, with the key seen from then on. *)
Inductive firstDiscovery (toolchain : option T)
  : list (Dep T) -> gset string -> list (Library T) -> gset string -> Prop :=
| discover_done (seen : gset string) :
    firstDiscovery toolchain [] seen [] seen
| discover_skip (dep : Dep T) (rest : list (Dep T)) (lib : Library T) (key : string)
    (seen seen' : gset string) (found : list (Library T)) :
    Dep_CcLibrary dep toolchain = Ok lib ->
    keyOf lib = Some key ->
    key ∈ seen ->
    firstDiscovery toolchain rest seen found seen' ->
    firstDiscovery toolchain (dep :: rest) seen found seen'
| discover_new (dep : Dep T) (rest : list (Dep T)) (lib : Library T) (key : string)
    (seen seen1 seen2 : gset string) (below found : list (Library T)) :
    Dep_CcLibrary dep toolchain = Ok lib ->
    keyOf lib = Some key ->
    key ∉ seen ->
    firstDiscovery toolchain (depsOf store (lib_Deps lib)) ({[key]} ∪ seen) below seen1 ->
    firstDiscovery toolchain rest seen1 found seen2 ->
    firstDiscovery toolchain (dep :: rest) seen (lib :: below ++ found) seen2.

(** The libraries that some chain of references reaches from [roots]. *)
Inductive reaches (toolchain : option T) (roots : list (Dep T)) : Library T -> Prop :=
| reaches_root (dep : Dep T) (lib : Library T) :
    dep ∈ roots ->
    Dep_CcLibrary dep toolchain = Ok lib ->
    reaches toolchain roots lib
| reaches_dep (parent : Library T) (dep : Dep T) (lib : Library T) :
    reaches toolchain roots parent ->
    dep ∈ depsOf store (lib_Deps parent) ->
    Dep_CcLibrary dep toolchain = Ok lib ->
    reaches toolchain roots lib.

(** The key of the Library a reference resolves to, when it resolves. *)
Definition resolvedKey (toolchain : option T) (dep : Dep T) : option string :=
  match Dep_CcLibrary dep toolchain with
  | Ok lib => keyOf lib
  | _ => None
  end.

(** The references of a graph: the roots and every entry of the store. *)
Definition references (roots : list (Dep T)) : list (Dep T) := roots ++ mjoin store.

(** The distinct resolved output paths of a graph. *)
Definition resolvedKeys (toolchain : option T) (roots : list (Dep T)) : gset string :=
  list_to_set (omap (resolvedKey toolchain) (references roots)).

(** The absolute output paths of the steps that archive or link a unit:
    the steps without a single input (compile and blob steps have one). *)
Definition unitKeys (steps : list BuildStep) : list string :=
  omap (fun step => match step_In step with
                    | None => Some (Absolute (step_Out step))
                    | Some _ => None
                    end) steps.

(** [ctx'] comes after [ctx] in one process: the built paths only grow, the
    steps only grow at the end, and the added steps archive or link each
    path at most once, and only paths registered as built in between. *)
Definition grows (ctx ctx' : Context) : Prop :=
  ctx_built ctx ⊆ ctx_built ctx'
  /\ exists more, ctx_steps ctx' = ctx_steps ctx ++ more
                  /\ NoDup (unitKeys more)
                  /\ forall key, key ∈ unitKeys more ->
                       (key ∉ ctx_built ctx) /\ (key ∈ ctx_built ctx').

(** What [ToolchainAccepts] decides: the parent [Y] admits the child [X]. *)
Definition admits (Y X : T) : Prop :=
  tcName Y = tcName X \/ exists accepts, tcAccepts Y = Some accepts /\ accepts X = true.
End Statements.

(** ** Capability probing *)

(** The optional methods [Architecture] and [Freestanding] of a toolchain,
    found by the type assertions of [ToolchainArchitecture] and
    [ToolchainFreestanding]: [None] when the dynamic type does not have the
    method. *)
Class ToolchainProbes (T : Type) : Type := {
  tcArchitecture : T -> option Architecture;
  tcFreestanding : T -> option bool
}.

(** ToolchainArchitecture returns the architecture for the toolchain if
    known. *)
Definition ToolchainArchitecture {T : Type} `{ToolchainProbes T} (toolchain : T)
  : Architecture :=
  match tcArchitecture toolchain with
  | Some architecture => architecture
  | None => ArchitectureUnknown
  end.

(** ToolchainFreestanding reports whether the toolchain uses a freestanding
    environment (rather than a hosted one). *)
Definition ToolchainFreestanding {T : Type} `{ToolchainProbes T} (toolchain : T) : bool :=
  match tcFreestanding toolchain with
  | Some freestanding => freestanding
  | None => false
  end.

(** [GccToolchain] has both methods. *)
#[export] Instance GccToolchain_Probes : ToolchainProbes GccToolchain := {
  tcArchitecture := fun gcc => Some (Gcc_Architecture gcc);
  tcFreestanding := fun gcc => Some (Gcc_Freestanding gcc)
}.

(** ** Further definitions used to state properties *)

Section MoreStatements.
Context {T : Type} `{Toolchain T} `{Host} `{Process T}.

(** Every path quoted by [%q] behind [flag] and followed by one space. *)
Definition flaggedWords (flag : string) (paths : list Path) : string :=
  foldr (fun p rest => flag +:+ quote (PathString p) +:+ " " +:+ rest)
    EmptyString paths.

(** The two flags that name the link script of a gcc link command. *)
Definition scriptFlags (gcc : GccToolchain) (script : option Path) : list string :=
  match script with
  | Some s => ["-T"; quote (PathString s)]
  | None =>
      match gcc_LinkerScript gcc with
      | Some s => ["-T"; quote (PathString s)]
      | None => []
      end
  end.

(** The object a source is compiled to under a toolchain. *)
Definition objectOf (toolchain : T) (src : Path) : Path :=
  WithExt "o" (WithPrefix (tcName toolchain +:+ "/") src).

(** The object a blob is wrapped into under a toolchain. *)
Definition blobOf (toolchain : T) (blob : Path) : Path :=
  WithExt "blob.o" (WithPrefix (tcName toolchain +:+ "/") blob).

(** The include search list of a compilation against a closure. *)
Definition includePath (deps : list (Library T)) : list Path :=
  SourcePath EmptyString :: mjoin (lib_Includes <$> deps).

(** The step that compiles one source. *)
Definition compileStep (toolchain : T) (flags : list string) (includes : list Path)
    (src : Path) : BuildStep :=
  mkBuildStep (objectOf toolchain src) (Some (WithExt "d" (objectOf toolchain src)))
    (Some src) []
    (tcObjectFile toolchain (objectOf toolchain src)
       (WithExt "d" (objectOf toolchain src)) flags includes src)
    (Sprintf "CC (toolchain: %s) %s"
       [StrArg (tcName toolchain); StrArg (Relative (objectOf toolchain src))]).

(** The step that wraps one blob. *)
Definition blobStep (toolchain : T) (blob : Path) : BuildStep :=
  mkBuildStep (blobOf toolchain blob) None (Some blob) []
    (tcBlobObject toolchain (blobOf toolchain blob) blob)
    (Sprintf "BLOB (toolchain: %s) %s"
       [StrArg (tcName toolchain); StrArg (Relative (blobOf toolchain blob))]).

(** The input of a link step that stands for the link script. *)
Definition scriptInput (bin : Binary T) (toolchain : T) : list Path :=
  match bin_Script bin with
  | Some script => [script]
  | None =>
      match tcScript toolchain with
      | Some script => [script]
      | None => []
      end
  end.

(** [ctx] with [more] steps added. *)
Definition withSteps (ctx : Context) (more : list BuildStep) : Context :=
  mkContext (ctx_built ctx) (ctx_steps ctx ++ more) (ctx_trace ctx).

(** Between [ctx] and [ctx'] the paths newly registered as built are the
    paths that the added steps archive or link. *)
Definition inSync (ctx ctx' : Context) : Prop :=
  ctx_built ctx ⊆ ctx_built ctx'
  /\ exists more, ctx_steps ctx' = ctx_steps ctx ++ more
                  /\ forall key, key ∈ unitKeys more
                                 <-> (key ∈ ctx_built ctx') /\ (key ∉ ctx_built ctx).

(** The final step of the build of a library. *)
Definition libraryStep (lib : Library T) (toolchain : T) (out : Path)
    (objs : list Path) : BuildStep :=
  mkBuildStep out None None objs
    (if lib_Shared lib then tcSharedLibrary toolchain out objs
     else tcStaticLibrary toolchain out objs)
    (if lib_Shared lib
     then Sprintf "LD (toolchain: %s) %s"
            [StrArg (tcName toolchain); StrArg (Relative out)]
     else Sprintf "AR (toolchain: %s) %s"
            [StrArg (tcName toolchain); StrArg (Relative out)]).

(** The final step of the build of a binary over a closure. *)
Definition binaryStep (bin : Binary T) (toolchain : T) (out : Path)
    (deps : list (Library T)) : BuildStep :=
  mkBuildStep out None None
    ((objectOf toolchain <$> bin_Srcs bin) ++ outsOf deps ++ scriptInput bin toolchain)
    (tcBinary toolchain out (objectOf toolchain <$> bin_Srcs bin)
       (outsOf (List.filter lib_AlwaysLink deps))
       (outsOf (List.filter (fun dep => negb (lib_AlwaysLink dep)) deps))
       (bin_LinkerFlags bin) (bin_Script bin))
    (Sprintf "LD (toolchain: %s) %s"
       [StrArg (tcName toolchain); StrArg (Relative out)]).
End MoreStatements.

(** More concrete inputs. *)
Module MoreExamples.
Import Examples.

(** A process whose flag names no registered toolchain. *)
Definition strayProcess : Process GccToolchain :=
  {| toolchains := registry; defaultToolchainFlag := "clang"; store := arrays |}.

(** A library with a source, a given object and a blob, on the diamond. *)
Definition full : Library GccToolchain :=
  mkLibrary (Some (NewOutPath "full.a")) [SourcePath "full.cc"] [SourcePath "logo.png"]
    [NewOutPath "given.o"] [] [] (depsAt 1) false false None.
End MoreExamples.

(** Inversion of a successful bind. *)
Ltac bind_inv E :=
  match type of E with
  | rbind ?r _ = Ok _ =>
      let x := fresh "x" in
      let Hx := fresh "H" x in
      destruct r as [x| | |] eqn:Hx; cbn [rbind] in E; [|discriminate E ..]
  end.

(** * Properties *)

Module Runs.
Import Examples.

Example collect_diamond :
  collectDepsWithToolchain 5 (Some NativeGcc) [DepLibrary top]
  = Ok [top; left; base; right].
Proof. vm_compute. reflexivity. Qed.

Example collect_cycle :
  collectDepsWithToolchain 5 (Some NativeGcc) [DepLibrary ping] = Ok [ping; pong].
Proof. vm_compute. reflexivity. Qed.
End Runs.

(** ** Strings *)

Lemma list_ascii_app (a b : string) :
  list_ascii_of_string (a +:+ b) = list_ascii_of_string a ++ list_ascii_of_string b.
Proof.
  induction a as [|c a IH]; [reflexivity|].
  change (c :: list_ascii_of_string (a +:+ b)
          = c :: (list_ascii_of_string a ++ list_ascii_of_string b)).
  now f_equal.
Qed.

Lemma list_ascii_inj (a b : string) :
  list_ascii_of_string a = list_ascii_of_string b -> a = b.
Proof.
  intros E. rewrite <- (string_of_list_ascii_of_string a), E.
  apply string_of_list_ascii_of_string.
Qed.

Lemma append_cancel_l (s a b : string) : s +:+ a = s +:+ b -> a = b.
Proof.
  intros E. apply list_ascii_inj. apply (f_equal list_ascii_of_string) in E.
  rewrite !list_ascii_app in E. now apply app_inv_head in E.
Qed.

Lemma append_cancel_r (s a b : string) : a +:+ s = b +:+ s -> a = b.
Proof.
  intros E. apply list_ascii_inj. apply (f_equal list_ascii_of_string) in E.
  rewrite !list_ascii_app in E. now apply app_inv_tail in E.
Qed.

Lemma append_nonempty_neq (p s : string) : p <> EmptyString -> p +:+ s <> s.
Proof.
  intros Hp E. apply (f_equal list_ascii_of_string) in E.
  rewrite list_ascii_app in E. apply (f_equal (@List.length ascii)) in E.
  rewrite length_app in E. destruct p; [congruence | simpl in E; lia].
Qed.

Lemma append_assoc (a b c : string) : (a +:+ b) +:+ c = a +:+ b +:+ c.
Proof.
  induction a as [|x a IH]; [reflexivity|].
  change (String x ((a +:+ b) +:+ c) = String x (a +:+ b +:+ c)). now f_equal.
Qed.

Lemma append_empty_r (a : string) : a +:+ EmptyString = a.
Proof.
  induction a as [|x a IH]; [reflexivity|].
  change (String x (a +:+ EmptyString) = String x a). now f_equal.
Qed.

(** ** Command strings of the gcc toolchain *)

Section GccCommands.
Context `{Host}.

Local Abbreviation q := (fun p => quote (PathString p)).

Lemma joinQuotedFrom_spec (paths : list Path) (b : string) :
  joinQuotedFrom b paths = b +:+ quotedWords paths.
Proof.
  revert b. induction paths as [|p paths IH]; intros b; cbn.
  - now rewrite append_empty_r.
  - rewrite IH, !append_assoc. reflexivity.
Qed.

Lemma joinQuoted_spec (paths : list Path) : joinQuoted paths = quotedWords paths.
Proof. unfold joinQuoted. now rewrite joinQuotedFrom_spec. Qed.

Lemma quotedWords_app (xs ys : list Path) :
  quotedWords (xs ++ ys) = quotedWords xs +:+ quotedWords ys.
Proof.
  induction xs as [|x xs IH]; cbn; [reflexivity|].
  fold (quotedWords (xs ++ ys)). fold (quotedWords xs).
  rewrite IH, !append_assoc. reflexivity.
Qed.

(** C5. The static-archive command is the removal of the archive at the
    output path, then a command separator, then the archiver creating the
    archive at the same path from the given objects, in order; every path
    is printed quoted by [%q]. *)
Theorem static_archive_removes_then_creates (gcc : GccToolchain) (out : Path)
    (objs : list Path) :
  Gcc_StaticLibrary gcc out objs
  = ("rm " +:+ q out +:+ " 2>/dev/null")
      +:+ " ; "
      +:+ (q (gcc_Ar gcc) +:+ " rcs " +:+ q out +:+ " " +:+ quotedWords objs).
Proof.
  unfold Gcc_StaticLibrary. rewrite joinQuoted_spec. cbn.
  rewrite append_empty_r, !append_assoc. reflexivity.
Qed.

Lemma gcc_binary_command (gcc : GccToolchain) (out : Path)
    (objs alwaysLinkLibs libs : list Path) (flags : list string) (script : option Path) :
  exists allFlags : list string,
    Gcc_Binary gcc out objs alwaysLinkLibs libs flags script
    = (q (gcc_Cxx gcc) +:+ " -pipe -o " +:+ q out +:+ " " +:+ quotedWords objs)
        +:+ " -Wl,-whole-archive " +:+ quotedWords alwaysLinkLibs
        +:+ " -Wl,-no-whole-archive " +:+ quotedWords libs
        +:+ " " +:+ Join allFlags " ".
Proof.
  unfold Gcc_Binary. eexists. rewrite !joinQuoted_spec. cbn.
  rewrite append_empty_r, !append_assoc. reflexivity.
Qed.
End GccCommands.

(** ** Resolution of dependency references *)

Section Resolution.
Context {T : Type} `{Toolchain T} `{Host} `{Process T}.

Lemma ToolchainAccepts_admits (Y X : T) : ToolchainAccepts Y X = true <-> admits Y X.
Proof.
  unfold ToolchainAccepts, admits.
  destruct (String.eqb_spec (tcName Y) (tcName X)) as [E|NE].
  - split; auto.
  - destruct (tcAccepts Y) as [accepts|].
    + split; [intros; right; eauto | intros [?|(a & Ha & Hx)]; congruence].
    + split; [discriminate | intros [?|(a & Ha & _)]; congruence].
Qed.

Lemma Library_CcLibrary_Ok (lib r : Library T) (toolchain : option T) :
  Library_CcLibrary lib toolchain = Ok r -> r = lib.
Proof.
  unfold Library_CcLibrary.
  destruct (toolchainOrDefault toolchain) as [t| | |]; cbn; try discriminate.
  destruct (toolchainOrDefault (lib_Toolchain lib)) as [o| | |]; cbn; try discriminate.
  destruct (ToolchainAccepts t o); cbn.
  - congruence.
  - destruct (lib_Out lib); cbn; discriminate.
Qed.

Lemma mtl_CcLibrary_Deps (mtl : multipleToolchainLibrary T) (r : Library T)
    (toolchain : option T) :
  mtl_CcLibrary mtl toolchain = Ok r -> lib_Deps r = lib_Deps (mtl_lib mtl).
Proof.
  unfold mtl_CcLibrary.
  destruct (toolchainOrDefault toolchain) as [t| | |]; cbn; try discriminate.
  destruct DefaultToolchain as [d| | |]; cbn; try discriminate.
  destruct (negb _); cbn.
  - destruct (mtl_baseOut mtl); cbn; [|discriminate]. intros [= <-]. reflexivity.
  - intros [= <-]. reflexivity.
Qed.

Lemma slash_suffix_nonempty (name : string) : name +:+ "/" <> EmptyString.
Proof. destruct name; discriminate. Qed.

Lemma Absolute_build_inj (a b : Path) :
  root a = BuildRoot -> root b = BuildRoot -> Absolute a = Absolute b -> rel a = rel b.
Proof.
  unfold Absolute. intros -> -> E. apply append_cancel_l in E. congruence.
Qed.

Lemma toolchainOrDefault_Some (t : T) : toolchainOrDefault (Some t) = Ok t.
Proof. reflexivity. Qed.

(** C2. A Library pinned to [X], with its output path set, resolves under a
    requesting toolchain [Y] to itself when the name of [X] is the name of
    [Y] or the method [Accepts] of [Y] admits [X], and is a fatal error
    otherwise. A toolchain without the method admits exactly the toolchains
    of its own name, and acceptance is not symmetric: the gcc toolchain
    [testing] accepts [NativeGcc], which does not accept [testing]. *)
Theorem compatibility_gating (lib : Library T) (X Y : T) (out : Path) :
  lib_Toolchain lib = Some X ->
  lib_Out lib = Some out ->
  (admits Y X -> Library_CcLibrary lib (Some Y) = Ok lib)
  /\ (~ admits Y X ->
        Library_CcLibrary lib (Some Y)
        = Fatal (Sprintf "Library %s does not support toolchain %s"
                   [StrArg (Relative out); StrArg (tcName Y)]))
  /\ (tcAccepts Y = None -> (admits Y X <-> tcName Y = tcName X))
  /\ (@ToolchainAccepts _ Examples.gcc Examples.testing Examples.NativeGcc = true
       /\ @ToolchainAccepts _ Examples.gcc Examples.NativeGcc Examples.testing = false).
Proof.
  intros HX Hout. unfold Library_CcLibrary. rewrite HX, Hout. cbn.
  pose proof (ToolchainAccepts_admits Y X) as Hadm.
  destruct (ToolchainAccepts Y X); cbn.
  - repeat split; try reflexivity.
    + intros Hn. exfalso. apply Hn, Hadm. reflexivity.
    + intros [E|(a & Ha & _)]; congruence.
    + intros E. now left.
  - repeat split; try reflexivity.
    + intros Ha. apply Hadm in Ha. discriminate.
    + intros [E|(a & Ha & _)]; congruence.
    + intros E. now left.
Qed.

(** C9. A plain Library whose compatibility check passes resolves to
    itself: every field of the result, the toolchain field included, is the
    field of the library, whatever the requesting toolchain is. *)
Theorem plain_library_resolves_to_itself (lib : Library T) (toolchain : option T)
    (requester own : T) :
  toolchainOrDefault toolchain = Ok requester ->
  toolchainOrDefault (lib_Toolchain lib) = Ok own ->
  ToolchainAccepts requester own = true ->
  Library_CcLibrary lib toolchain = Ok lib
  /\ (forall r, Library_CcLibrary lib toolchain = Ok r ->
        r = lib /\ lib_Toolchain r = lib_Toolchain lib
        /\ toolchainOrDefault (lib_Toolchain r) = Ok own).
Proof.
  intros Hreq Hown Hacc.
  assert (E : Library_CcLibrary lib toolchain = Ok lib).
  { unfold Library_CcLibrary. rewrite Hreq, Hown. cbn. now rewrite Hacc. }
  split; [exact E|]. intros r Hr. rewrite E in Hr. injection Hr as <-. auto.
Qed.

(** C3, as the code has it. For a multi-toolchain library made by
    [MultipleToolchains] from a Library with output path [P]: resolved under
    a toolchain whose name is the name of the process default (or under no
    toolchain), the result is the wrapped Library with the bare output path
    [P] and with its toolchain field bound to the requested toolchain;
    resolved under a toolchain of another name, the result is the wrapped
    Library with output path [P] prefixed by that name and a slash and with
    its toolchain field bound to it. The variants of two toolchains of
    different names have different output paths. *)
Theorem multi_toolchain_variants (lib : Library T)
    (mtl : multipleToolchainLibrary T) (P : Path) (D : T) :
  Library_MultipleToolchains lib = Ok mtl ->
  lib_Out lib = Some P ->
  DefaultToolchain = Ok D ->
  (forall t, tcName t = tcName D ->
     mtl_CcLibrary mtl (Some t) = Ok (setToolchain lib (Some t)))
  /\ mtl_CcLibrary mtl None = Ok (setToolchain lib (Some D))
  /\ (forall t, tcName t <> tcName D ->
        mtl_CcLibrary mtl (Some t)
        = Ok (setToolchain (setOut lib (Some (WithPrefix (tcName t +:+ "/") P))) (Some t)))
  /\ (forall t1 t2 r1 r2 o1 o2,
        tcName t1 <> tcName t2 ->
        mtl_CcLibrary mtl (Some t1) = Ok r1 -> lib_Out r1 = Some o1 ->
        mtl_CcLibrary mtl (Some t2) = Ok r2 -> lib_Out r2 = Some o2 ->
        rel o1 <> rel o2
        /\ (root P = BuildRoot -> Absolute o1 <> Absolute o2)).
Proof.
  intros Hmtl HP HD.
  unfold Library_MultipleToolchains in Hmtl. rewrite HP in Hmtl.
  injection Hmtl as <-.
  assert (Hsame : forall t, tcName t = tcName D ->
            mtl_CcLibrary (mkMultipleToolchainLibrary (Some P) lib) (Some t)
            = Ok (setToolchain lib (Some t))).
  { intros t E. unfold mtl_CcLibrary. cbn. rewrite HD. cbn.
    rewrite E, String.eqb_refl. reflexivity. }
  assert (Hother : forall t, tcName t <> tcName D ->
            mtl_CcLibrary (mkMultipleToolchainLibrary (Some P) lib) (Some t)
            = Ok (setToolchain
                    (setOut lib (Some (WithPrefix (tcName t +:+ "/") P))) (Some t))).
  { intros t NE. unfold mtl_CcLibrary. cbn. rewrite HD. cbn.
    apply String.eqb_neq in NE. rewrite NE. reflexivity. }
  assert (Hout : forall t r o,
            mtl_CcLibrary (mkMultipleToolchainLibrary (Some P) lib) (Some t) = Ok r ->
            lib_Out r = Some o ->
            (tcName t = tcName D /\ o = P)
            \/ (tcName t <> tcName D /\ o = WithPrefix (tcName t +:+ "/") P)).
  { intros t r o Hr Ho.
    destruct (String.eqb_spec (tcName t) (tcName D)) as [E|NE].
    - rewrite (Hsame t E) in Hr. injection Hr as <-. cbn in Ho. rewrite HP in Ho.
      injection Ho as <-. auto.
    - rewrite (Hother t NE) in Hr. injection Hr as <-. cbn in Ho.
      injection Ho as <-. auto. }
  split; [exact Hsame|]. split; [|split; [exact Hother|]].
  { unfold mtl_CcLibrary. cbn. rewrite HD. cbn. rewrite String.eqb_refl. reflexivity. }
  intros t1 t2 r1 r2 o1 o2 NE Hr1 Ho1 Hr2 Ho2.
  assert (Hrel : rel o1 <> rel o2).
  { destruct (Hout _ _ _ Hr1 Ho1) as [[E1 ->]|[N1 ->]];
      destruct (Hout _ _ _ Hr2 Ho2) as [[E2 ->]|[N2 ->]]; cbn.
    - congruence.
    - intros E. symmetry in E. revert E. apply append_nonempty_neq.
      apply slash_suffix_nonempty.
    - apply append_nonempty_neq, slash_suffix_nonempty.
    - intros E. apply append_cancel_r in E. apply append_cancel_r in E. congruence. }
  split; [exact Hrel|]. intros HrootP E. apply Hrel.
  apply (Absolute_build_inj o1 o2); [| |exact E].
  - destruct (Hout _ _ _ Hr1 Ho1) as [[_ ->]|[_ ->]]; [exact HrootP | reflexivity].
  - destruct (Hout _ _ _ Hr2 Ho2) as [[_ ->]|[_ ->]]; [exact HrootP | reflexivity].
Qed.

End Resolution.

(** ** The dependency collector *)

Section Collector.
Context {T : Type} `{Toolchain T} `{Host} `{Process T}.
Variable toolchain : option T.

Local Abbreviation Found := (list (Library T) * gset string)%type.

Lemma Dep_CcLibrary_fuel (dep : Dep T) : Dep_CcLibrary dep toolchain <> OutOfFuel.
Proof.
  assert (Hd : forall t, toolchainOrDefault t <> OutOfFuel).
  { intros [t|]; cbn; [discriminate|]. unfold DefaultToolchain.
    destruct (toolchains !! defaultToolchainFlag); discriminate. }
  assert (Hdef : DefaultToolchain <> OutOfFuel) by apply (Hd None).
  destruct dep as [lib|mtl]; cbn.
  - unfold Library_CcLibrary.
    pose proof (Hd toolchain). pose proof (Hd (lib_Toolchain lib)).
    destruct (toolchainOrDefault toolchain); cbn; try congruence.
    destruct (toolchainOrDefault (lib_Toolchain lib)); cbn; try congruence.
    destruct (negb _); [|discriminate]. destruct (lib_Out lib); discriminate.
  - unfold mtl_CcLibrary. pose proof (Hd toolchain).
    destruct (toolchainOrDefault toolchain); cbn; try congruence.
    destruct DefaultToolchain; cbn; try congruence.
    destruct (negb _); cbn; [|discriminate].
    destruct (mtl_baseOut mtl); discriminate.
Qed.

Lemma Dep_CcLibrary_Deps (dep : Dep T) (lib : Library T) :
  Dep_CcLibrary dep toolchain = Ok lib ->
  exists inner, lib_Deps lib = lib_Deps inner
                /\ (dep = DepLibrary inner
                    \/ exists base, dep = DepMultipleToolchains
                                            (mkMultipleToolchainLibrary base inner)).
Proof.
  destruct dep as [l|[base l]]; cbn; intros E.
  - apply Library_CcLibrary_Ok in E. subst. eauto.
  - apply mtl_CcLibrary_Deps in E. eauto.
Qed.

(** The result list of the loop only ever grows at its end. *)
Lemma collectLoop_flat (recurse : list (Dep T) -> gset string -> Result Found)
    (deps : list (Dep T)) (flatDeps : list (Library T)) (visited : gset string) :
  collectLoop recurse toolchain deps flatDeps visited
  = let! r := collectLoop recurse toolchain deps [] visited in
    Ok (flatDeps ++ r.1, r.2).
Proof.
  revert flatDeps visited. induction deps as [|dep rest IH]; intros flat v; cbn.
  - now rewrite app_nil_r.
  - destruct (Dep_CcLibrary dep toolchain) as [lib| | |]; cbn; try reflexivity.
    destruct (lib_Out lib) as [out|]; cbn; try reflexivity.
    case_bool_decide.
    + apply IH.
    + destruct (recurse _ _) as [[sub v1]| | |]; cbn; try reflexivity.
      rewrite (IH ((flat ++ [lib]) ++ sub)), (IH (lib :: sub)).
      destruct (collectLoop recurse toolchain rest [] v1) as [[l v2]| | |]; cbn;
        try reflexivity.
      now rewrite <- !app_assoc.
Qed.

(** One turn of the loop of [collectDepsWithToolchainRec]. *)
Lemma collectRec_cons (fuel : nat) (dep : Dep T) (rest : list (Dep T))
    (visited : gset string) :
  collectDepsWithToolchainRec (S fuel) toolchain (dep :: rest) visited
  = let! lib := Dep_CcLibrary dep toolchain in
    let! libPath := deref (lib_Out lib) Absolute in
    if bool_decide (libPath ∈ visited)
    then collectDepsWithToolchainRec (S fuel) toolchain rest visited
    else
      let! sub := collectDepsWithToolchainRec fuel toolchain
                    (depsOf store (lib_Deps lib)) ({[libPath]} ∪ visited) in
      let! r := collectDepsWithToolchainRec (S fuel) toolchain rest sub.2 in
      Ok (lib :: sub.1 ++ r.1, r.2).
Proof.
  cbn [collectDepsWithToolchainRec collectLoop].
  destruct (Dep_CcLibrary dep toolchain) as [lib| | |]; cbn; try reflexivity.
  destruct (lib_Out lib) as [out|]; cbn; try reflexivity.
  case_bool_decide; [reflexivity|].
  destruct (collectDepsWithToolchainRec fuel toolchain _ _) as [[sub v1]| | |]; cbn;
    try reflexivity.
  rewrite collectLoop_flat. reflexivity.
Qed.

Lemma collectRec_nil (fuel : nat) (visited : gset string) :
  collectDepsWithToolchainRec (S fuel) toolchain [] visited = Ok ([], visited).
Proof. reflexivity. Qed.

(** The collector follows the traversal of the specification. *)
Lemma collectRec_firstDiscovery (fuel : nat) :
  forall (deps : list (Dep T)) (visited : gset string) (found : Found),
    collectDepsWithToolchainRec fuel toolchain deps visited = Ok found ->
    firstDiscovery toolchain deps visited found.1 found.2.
Proof.
  induction fuel as [|fuel IHfuel]; [discriminate|].
  induction deps as [|dep rest IHdeps]; intros v found E.
  - injection E as <-. constructor.
  - rewrite collectRec_cons in E.
    destruct (Dep_CcLibrary dep toolchain) as [lib| | |] eqn:Hlib; try discriminate.
    cbn [rbind deref] in E. destruct (lib_Out lib) as [out|] eqn:Hout; try discriminate.
    cbn [rbind deref] in E. assert (Hkey : keyOf lib = Some (Absolute out)).
    { unfold keyOf. now rewrite Hout. }
    case_bool_decide.
    + eapply discover_skip; eauto.
    + destruct (collectDepsWithToolchainRec fuel toolchain _ _) as [sub| | |] eqn:Hsub;
        try discriminate.
      cbn [rbind deref] in E.
      destruct (collectDepsWithToolchainRec (S fuel) toolchain rest _) as [r| | |] eqn:Hr;
        try discriminate.
      injection E as <-. cbn.
      eapply discover_new; eauto.
Qed.

Lemma keysOf_cons (lib : Library T) (key : string) (libs : list (Library T)) :
  keyOf lib = Some key -> keysOf (lib :: libs) = key :: keysOf libs.
Proof. intros E. unfold keysOf. cbn. now rewrite E. Qed.

Lemma keysOf_app (xs ys : list (Library T)) : keysOf (xs ++ ys) = keysOf xs ++ keysOf ys.
Proof. apply omap_app. Qed.

Lemma keysOf_elem (key : string) (libs : list (Library T)) :
  key ∈ keysOf libs <-> exists lib, lib ∈ libs /\ keyOf lib = Some key.
Proof. unfold keysOf. apply list_elem_of_omap. Qed.

(** The traversal adds to the seen keys exactly the keys of what it found. *)
Lemma discovery_seen (deps : list (Dep T)) (seen : gset string)
    (found : list (Library T)) (seen' : gset string) :
  firstDiscovery toolchain deps seen found seen' ->
  seen' = seen ∪ list_to_set (keysOf found).
Proof.
  induction 1 as
    [v|dep rest lib key v v' l Hlib Hkey Hin _ IH
      |dep rest lib key v v1 v2 below l Hlib Hkey Hnin _ IH1 _ IH2].
  - cbn. set_solver.
  - exact IH.
  - rewrite (keysOf_cons _ key _ Hkey), keysOf_app, IH2, IH1. set_solver.
Qed.

(** No key is found twice, and no key that was seen is found again. *)
Lemma discovery_NoDup (deps : list (Dep T)) (seen : gset string)
    (found : list (Library T)) (seen' : gset string) :
  firstDiscovery toolchain deps seen found seen' ->
  NoDup (keysOf found) /\ (forall key, key ∈ keysOf found -> key ∉ seen).
Proof.
  induction 1 as
    [v|dep rest lib key v v' l Hlib Hkey Hin _ IH
      |dep rest lib key v v1 v2 below l Hlib Hkey Hnin Hbelow IH1 _ IH2].
  - split; [constructor | intros key Hk; inversion Hk].
  - exact IH.
  - destruct IH1 as [ND1 F1], IH2 as [ND2 F2].
    pose proof (discovery_seen _ _ _ _ Hbelow) as Hv1.
    rewrite (keysOf_cons _ key _ Hkey), keysOf_app. split.
    + constructor.
      * rewrite elem_of_app. intros [Hk|Hk].
        -- apply F1 in Hk. set_solver.
        -- apply F2 in Hk. set_solver.
      * apply NoDup_app. split; [exact ND1|]. split; [|exact ND2].
        intros k Hk1 Hk2. apply F2 in Hk2. apply Hk2. rewrite Hv1.
        apply elem_of_union_r, elem_of_list_to_set. exact Hk1.
    + intros k Hk. rewrite elem_of_cons, elem_of_app in Hk.
      destruct Hk as [->|[Hk|Hk]]; [exact Hnin| |].
      * apply F1 in Hk. set_solver.
      * apply F2 in Hk. set_solver.
Qed.

(** Every Library found has an output path. *)
Lemma discovery_has_out (deps : list (Dep T)) (seen : gset string)
    (found : list (Library T)) (seen' : gset string) :
  firstDiscovery toolchain deps seen found seen' ->
  Forall (fun lib => is_Some (lib_Out lib)) found.
Proof.
  induction 1 as
    [v|dep rest lib key v v' l Hlib Hkey Hin _ IH
      |dep rest lib key v v1 v2 below l Hlib Hkey Hnin _ IH1 _ IH2].
  - constructor.
  - exact IH.
  - constructor; [|apply Forall_app; auto].
    unfold keyOf in Hkey. destruct (lib_Out lib); [eauto | discriminate].
Qed.

(** Every reference given to the traversal resolves, to a Library whose key
    is seen afterwards. *)
Lemma discovery_roots (deps : list (Dep T)) (seen : gset string)
    (found : list (Library T)) (seen' : gset string) :
  firstDiscovery toolchain deps seen found seen' ->
  forall dep, dep ∈ deps ->
    exists lib key, Dep_CcLibrary dep toolchain = Ok lib /\ keyOf lib = Some key
                    /\ key ∈ seen'.
Proof.
  induction 1 as
    [v|dep rest lib key v v' l Hlib Hkey Hin Hrest IH
      |dep rest lib key v v1 v2 below l Hlib Hkey Hnin Hbelow IH1 Hrest IH2];
    intros d Hd.
  - inversion Hd.
  - apply elem_of_cons in Hd as [->|Hd]; [|auto].
    exists lib, key. repeat split; auto.
    rewrite (discovery_seen _ _ _ _ Hrest). set_solver.
  - apply elem_of_cons in Hd as [->|Hd]; [|auto].
    exists lib, key. repeat split; auto.
    rewrite (discovery_seen _ _ _ _ Hrest), (discovery_seen _ _ _ _ Hbelow). set_solver.
Qed.

(** Every reference of a Library found resolves, to a Library whose key is
    seen afterwards. *)
Lemma discovery_closed (deps : list (Dep T)) (seen : gset string)
    (found : list (Library T)) (seen' : gset string) :
  firstDiscovery toolchain deps seen found seen' ->
  forall parent dep, parent ∈ found -> dep ∈ depsOf store (lib_Deps parent) ->
    exists lib key, Dep_CcLibrary dep toolchain = Ok lib /\ keyOf lib = Some key
                    /\ key ∈ seen'.
Proof.
  induction 1 as
    [v|dep rest lib key v v' l Hlib Hkey Hin Hrest IH
      |dep rest lib key v v1 v2 below l Hlib Hkey Hnin Hbelow IH1 Hrest IH2];
    intros parent d Hp Hd.
  - inversion Hp.
  - eauto.
  - pose proof (discovery_seen _ _ _ _ Hrest) as Hv2.
    rewrite elem_of_cons, elem_of_app in Hp. destruct Hp as [->|[Hp|Hp]].
    + destruct (discovery_roots _ _ _ _ Hbelow d Hd) as (x & k & Hx & Hk & Hin).
      exists x, k. repeat split; auto. rewrite Hv2. set_solver.
    + destruct (IH1 parent d Hp Hd) as (x & k & Hx & Hk & Hin).
      exists x, k. repeat split; auto. rewrite Hv2. set_solver.
    + eauto.
Qed.

Lemma reaches_roots_mono (roots roots' : list (Dep T)) (lib : Library T) :
  (forall dep, dep ∈ roots -> dep ∈ roots') ->
  reaches toolchain roots lib -> reaches toolchain roots' lib.
Proof.
  intros Hsub. induction 1 as [dep lib Hd Hlib|parent dep lib _ IH Hd Hlib].
  - eapply reaches_root; eauto.
  - eapply reaches_dep; eauto.
Qed.

Lemma reaches_below (roots : list (Dep T)) (parent lib : Library T) :
  reaches toolchain roots parent ->
  reaches toolchain (depsOf store (lib_Deps parent)) lib ->
  reaches toolchain roots lib.
Proof.
  intros Hp. induction 1 as [dep lib Hd Hlib|mid dep lib _ IH Hd Hlib].
  - eapply reaches_dep; eauto.
  - eapply reaches_dep; eauto.
Qed.

(** Every Library found is reached by a chain of references. *)
Lemma discovery_reaches (deps : list (Dep T)) (seen : gset string)
    (found : list (Library T)) (seen' : gset string) :
  firstDiscovery toolchain deps seen found seen' ->
  forall lib, lib ∈ found -> reaches toolchain deps lib.
Proof.
  induction 1 as
    [v|dep rest lib key v v' l Hlib Hkey Hin Hrest IH
      |dep rest lib key v v1 v2 below l Hlib Hkey Hnin Hbelow IH1 Hrest IH2];
    intros x Hx.
  - inversion Hx.
  - apply (reaches_roots_mono rest); [set_solver | auto].
  - assert (Hroot : reaches toolchain (dep :: rest) lib).
    { eapply reaches_root; [|exact Hlib]. set_solver. }
    rewrite elem_of_cons, elem_of_app in Hx. destruct Hx as [->|[Hx|Hx]].
    + exact Hroot.
    + eapply reaches_below; eauto.
    + apply (reaches_roots_mono rest); [set_solver | auto].
Qed.

(** *** Fuel *)

Lemma rbind_fuel {A B : Type} (r : Result A) (k : A -> Result B) :
  rbind r k <> OutOfFuel -> r <> OutOfFuel.
Proof. destruct r; cbn; congruence. Qed.

(** More fuel does not change a result that was reached. *)
Lemma collectRec_fuel_S (fuel : nat) :
  forall (deps : list (Dep T)) (visited : gset string),
    collectDepsWithToolchainRec fuel toolchain deps visited <> OutOfFuel ->
    collectDepsWithToolchainRec (S fuel) toolchain deps visited
    = collectDepsWithToolchainRec fuel toolchain deps visited.
Proof.
  induction fuel as [|fuel IHfuel]; [intros deps v Hne; now contradict Hne|].
  induction deps as [|dep rest IHdeps]; intros v Hne; [reflexivity|].
  rewrite (collectRec_cons (S fuel)). rewrite (collectRec_cons fuel) in Hne |- *.
  destruct (Dep_CcLibrary dep toolchain) as [lib| | |]; cbn [rbind] in *; try reflexivity.
  destruct (deref (lib_Out lib) Absolute) as [key| | |]; cbn [rbind] in *;
    try reflexivity.
  case_bool_decide; [now apply IHdeps|].
  pose proof (rbind_fuel _ _ Hne) as Hsub. rewrite (IHfuel _ _ Hsub).
  destruct (collectDepsWithToolchainRec fuel toolchain _ _) as [sub| | |];
    cbn [rbind] in *; try reflexivity.
  pose proof (rbind_fuel _ _ Hne) as Hrest. now rewrite (IHdeps _ Hrest).
Qed.

Lemma collectRec_fuel_add (fuel extra : nat) (deps : list (Dep T))
    (visited : gset string) :
  collectDepsWithToolchainRec fuel toolchain deps visited <> OutOfFuel ->
  collectDepsWithToolchainRec (fuel + extra) toolchain deps visited
  = collectDepsWithToolchainRec fuel toolchain deps visited.
Proof.
  intros Hne. induction extra as [|extra IH]; [now rewrite Nat.add_0_r|].
  rewrite Nat.add_succ_r, collectRec_fuel_S; rewrite IH; auto.
Qed.

Lemma collectRec_fuel_le (fuel fuel' : nat) (deps : list (Dep T))
    (visited : gset string) (found : Found) :
  collectDepsWithToolchainRec fuel toolchain deps visited = Ok found ->
  fuel <= fuel' ->
  collectDepsWithToolchainRec fuel' toolchain deps visited = Ok found.
Proof.
  intros E Hle. replace fuel' with (fuel + (fuel' - fuel)) by lia.
  rewrite collectRec_fuel_add; [exact E | rewrite E; discriminate].
Qed.

(** The traversal of the specification is computed by the collector. *)
Lemma firstDiscovery_collectRec (deps : list (Dep T)) (seen : gset string)
    (found : list (Library T)) (seen' : gset string) :
  firstDiscovery toolchain deps seen found seen' ->
  exists fuel, collectDepsWithToolchainRec (S fuel) toolchain deps seen
               = Ok (found, seen').
Proof.
  induction 1 as
    [v|dep rest lib key v v' l Hlib Hkey Hin _ [fuel IH]
      |dep rest lib key v v1 v2 below l Hlib Hkey Hnin _ [f1 IH1] _ [f2 IH2]].
  - exists 0. reflexivity.
  - exists fuel. rewrite collectRec_cons, Hlib. cbn [rbind].
    unfold keyOf in Hkey. destruct (lib_Out lib) as [out|]; [|discriminate].
    injection Hkey as <-. cbn [deref rbind]. now rewrite bool_decide_eq_true_2.
  - exists (S (Nat.max f1 f2)). rewrite collectRec_cons, Hlib. cbn [rbind].
    unfold keyOf in Hkey. destruct (lib_Out lib) as [out|]; [|discriminate].
    injection Hkey as <-. cbn [deref rbind]. rewrite bool_decide_eq_false_2 by assumption.
    rewrite (collectRec_fuel_le _ (S (Nat.max f1 f2)) _ _ _ IH1) by lia.
    cbn [rbind fst snd].
    rewrite (collectRec_fuel_le _ (S (S (Nat.max f1 f2))) _ _ _ IH2) by lia.
    reflexivity.
Qed.

(** *** Termination *)

Lemma depsOf_references (roots : list (Dep T)) (slice : DepSlice) (dep : Dep T) :
  dep ∈ depsOf store slice -> dep ∈ references roots.
Proof.
  unfold references. intros Hd. apply elem_of_app. right.
  destruct slice as [|addr]; cbn in Hd; [inversion Hd|].
  destruct (store !! addr) as [row|] eqn:Hrow; cbn in Hd; [|inversion Hd].
  apply list_elem_of_join. exists row. split; [exact Hd|].
  eapply list_elem_of_lookup_2; eauto.
Qed.

Lemma resolvedKeys_elem (roots : list (Dep T)) (dep : Dep T) (lib : Library T)
    (out : Path) :
  dep ∈ references roots ->
  Dep_CcLibrary dep toolchain = Ok lib ->
  lib_Out lib = Some out ->
  Absolute out ∈ resolvedKeys toolchain roots.
Proof.
  intros Hd Hlib Hout. unfold resolvedKeys. apply elem_of_list_to_set.
  apply list_elem_of_omap. exists dep. split; [exact Hd|].
  unfold resolvedKey, keyOf. now rewrite Hlib, Hout.
Qed.

(** The collector returns when its fuel exceeds the number of resolved
    output paths of the graph that are not yet visited. *)
Lemma collectRec_terminates (roots : list (Dep T)) (fuel : nat) :
  forall (deps : list (Dep T)) (visited : gset string),
    (forall dep, dep ∈ deps -> dep ∈ references roots) ->
    size (resolvedKeys toolchain roots ∖ visited) < fuel ->
    collectDepsWithToolchainRec fuel toolchain deps visited <> OutOfFuel.
Proof.
  induction fuel as [|fuel IHfuel]; [intros; lia|].
  induction deps as [|dep rest IHdeps]; intros v Hin Hsize; [discriminate|].
  rewrite collectRec_cons.
  pose proof (Dep_CcLibrary_fuel dep) as Hres.
  destruct (Dep_CcLibrary dep toolchain) as [lib| | |] eqn:Hlib; cbn [rbind];
    try discriminate; [|congruence].
  destruct (lib_Out lib) as [out|] eqn:Hout; cbn [deref rbind]; [|discriminate].
  assert (Hrest : forall d, d ∈ rest -> d ∈ references roots) by (intros; apply Hin; set_solver).
  case_bool_decide as Hseen; [now apply IHdeps|].
  assert (HK : Absolute out ∈ resolvedKeys toolchain roots).
  { eapply resolvedKeys_elem; eauto. apply Hin. set_solver. }
  assert (Hless : size (resolvedKeys toolchain roots ∖ ({[Absolute out]} ∪ v)) < fuel).
  { assert (size (resolvedKeys toolchain roots ∖ ({[Absolute out]} ∪ v))
            < size (resolvedKeys toolchain roots ∖ v)); [|lia].
    apply subset_size. set_solver. }
  pose proof (IHfuel (depsOf store (lib_Deps lib)) _
                (fun d Hd => depsOf_references roots _ d Hd) Hless) as Hsub.
  destruct (collectDepsWithToolchainRec fuel toolchain _ _) as [sub| | |] eqn:Esub;
    cbn [rbind]; try discriminate; [|congruence].
  pose proof (discovery_seen _ _ _ _ (collectRec_firstDiscovery _ _ _ _ Esub)) as Hv1.
  assert (Hsize' : size (resolvedKeys toolchain roots ∖ sub.2) < S fuel).
  { assert (size (resolvedKeys toolchain roots ∖ sub.2)
            <= size (resolvedKeys toolchain roots ∖ v)); [|lia].
    apply subseteq_size. rewrite Hv1. set_solver. }
  pose proof (IHdeps sub.2 Hrest Hsize') as Hr.
  destruct (collectDepsWithToolchainRec (S fuel) toolchain rest sub.2) as [r| | |];
    cbn [rbind]; try discriminate. congruence.
Qed.

Lemma keysOf_length (libs : list (Library T)) :
  Forall (fun lib => is_Some (lib_Out lib)) libs -> length (keysOf libs) = length libs.
Proof.
  induction 1 as [|lib libs [out Hout] _ IH]; [reflexivity|].
  rewrite (keysOf_cons _ (Absolute out)); [cbn; now rewrite IH|].
  unfold keyOf. now rewrite Hout.
Qed.

Lemma collect_firstDiscovery (fuel : nat) (deps : list (Dep T)) (libs : list (Library T)) :
  collectDepsWithToolchain fuel toolchain deps = Ok libs ->
  firstDiscovery toolchain deps ∅ libs (list_to_set (keysOf libs)).
Proof.
  unfold collectDepsWithToolchain. intros E.
  destruct (collectDepsWithToolchainRec fuel toolchain deps ∅) as [found| | |] eqn:Hrec;
    try discriminate.
  injection E as <-. apply collectRec_firstDiscovery in Hrec.
  pose proof (discovery_seen _ _ _ _ Hrec) as Hseen.
  replace (list_to_set (keysOf found.1)) with found.2; [exact Hrec|].
  rewrite Hseen. set_solver.
Qed.

(** C1. When the collector returns a list: no two of its Libraries have the
    same absolute output path and each has one; the list is the
    first-discovery order of the depth-first traversal from no key seen;
    each Library of the list is reached by a chain of references; the
    Library of every given reference, and of every reference of a Library
    of the list, is in the list by its key. Where Libraries of one key have
    the same references, every Library that a chain of references reaches
    is in the list by its key, once. *)
Theorem collector_lists_each_library_once (fuel : nat) (deps : list (Dep T))
    (libs : list (Library T)) :
  collectDepsWithToolchain fuel toolchain deps = Ok libs ->
  NoDup (keysOf libs)
  /\ length (keysOf libs) = length libs
  /\ firstDiscovery toolchain deps ∅ libs (list_to_set (keysOf libs))
  /\ (forall lib, lib ∈ libs -> reaches toolchain deps lib)
  /\ (forall dep, dep ∈ deps ->
        exists lib key, Dep_CcLibrary dep toolchain = Ok lib /\ keyOf lib = Some key
                        /\ key ∈ keysOf libs)
  /\ (forall parent dep, parent ∈ libs -> dep ∈ depsOf store (lib_Deps parent) ->
        exists lib key, Dep_CcLibrary dep toolchain = Ok lib /\ keyOf lib = Some key
                        /\ key ∈ keysOf libs)
  /\ ((forall l1 l2, reaches toolchain deps l1 -> reaches toolchain deps l2 ->
                     keyOf l1 = keyOf l2 -> lib_Deps l1 = lib_Deps l2) ->
      forall lib, reaches toolchain deps lib ->
        exists key, keyOf lib = Some key /\ key ∈ keysOf libs).
Proof.
  intros E. pose proof (collect_firstDiscovery _ _ _ E) as Hd.
  assert (Hseen : forall key, key ∈ (list_to_set (keysOf libs) : gset string)
                              <-> key ∈ keysOf libs)
    by (intros; apply elem_of_list_to_set).
  assert (Hroots : forall dep, dep ∈ deps ->
            exists lib key, Dep_CcLibrary dep toolchain = Ok lib /\ keyOf lib = Some key
                            /\ key ∈ keysOf libs).
  { intros dep Hdep.
    destruct (discovery_roots _ _ _ _ Hd dep Hdep) as (lib & key & ? & ? & Hin).
    exists lib, key. rewrite <- Hseen. auto. }
  assert (Hclosed : forall parent dep, parent ∈ libs ->
            dep ∈ depsOf store (lib_Deps parent) ->
            exists lib key, Dep_CcLibrary dep toolchain = Ok lib /\ keyOf lib = Some key
                            /\ key ∈ keysOf libs).
  { intros parent dep Hp Hdep.
    destruct (discovery_closed _ _ _ _ Hd parent dep Hp Hdep) as (lib & key & ? & ? & Hin).
    exists lib, key. rewrite <- Hseen. auto. }
  pose proof (discovery_reaches _ _ _ _ Hd) as Hreach.
  split; [apply (discovery_NoDup _ _ _ _ Hd)|].
  split; [apply keysOf_length, (discovery_has_out _ _ _ _ Hd)|].
  split; [exact Hd|]. split; [exact Hreach|].
  split; [exact Hroots|]. split; [exact Hclosed|].
  intros Hsame lib. induction 1 as [dep lib Hdep Hlib|parent dep lib Hp IH Hdep Hlib].
  - destruct (Hroots dep Hdep) as (lib' & key & Hlib' & Hkey & Hin).
    rewrite Hlib in Hlib'. injection Hlib' as <-. eauto.
  - destruct IH as (pkey & Hpkey & Hpin).
    apply keysOf_elem in Hpin as (listed & Hlisted & Hlkey).
    assert (Hdeps : lib_Deps parent = lib_Deps listed).
    { apply Hsame; auto. congruence. }
    rewrite Hdeps in Hdep.
    destruct (Hclosed listed dep Hlisted Hdep) as (lib' & key & Hlib' & Hkey & Hin).
    rewrite Hlib in Hlib'. injection Hlib' as <-. eauto.
Qed.

(** C10. On every store of backing arrays and every list of references,
    cyclic or not, the collector returns (a list, or the abort of a failed
    resolution) as soon as the depth allowed to its recursion is the number
    of distinct resolved output paths of the graph; a larger allowance
    changes nothing. On the two-library cycle of [Examples] it returns both
    libraries. *)
Theorem collector_terminates (deps : list (Dep T)) (extra : nat) :
  let bound := size (resolvedKeys toolchain deps) in
  collectDepsWithToolchain (S bound) toolchain deps <> OutOfFuel
  /\ collectDepsWithToolchain (S bound + extra) toolchain deps
     = collectDepsWithToolchain (S bound) toolchain deps
  /\ @collectDepsWithToolchain _ Examples.gcc Examples.host Examples.process
       (S (size (@resolvedKeys _ Examples.gcc Examples.host Examples.process
                   (Some Examples.NativeGcc) [DepLibrary Examples.ping])))
       (Some Examples.NativeGcc) [DepLibrary Examples.ping]
     = Ok [Examples.ping; Examples.pong].
Proof.
  intros bound.
  assert (Hrec : collectDepsWithToolchainRec (S bound) toolchain deps ∅ <> OutOfFuel).
  { apply (collectRec_terminates deps).
    - intros dep Hdep. unfold references. set_solver.
    - assert (size (resolvedKeys toolchain deps ∖ ∅) <= bound); [|lia].
      apply subseteq_size. set_solver. }
  split; [|split].
  - unfold collectDepsWithToolchain.
    destruct (collectDepsWithToolchainRec (S bound) toolchain deps ∅); cbn; congruence.
  - unfold collectDepsWithToolchain. now rewrite collectRec_fuel_add.
  - vm_compute. reflexivity.
Qed.

End Collector.

(** ** Building *)

Section Building.
Context {T : Type} `{Toolchain T} `{Host} `{Process T}.

Lemma unitKeys_app (xs ys : list BuildStep) : unitKeys (xs ++ ys) = unitKeys xs ++ unitKeys ys.
Proof. apply omap_app. Qed.

Lemma grows_refl (ctx : Context) : grows ctx ctx.
Proof.
  split; [reflexivity|]. exists []. rewrite app_nil_r.
  split; [|split]; [reflexivity | constructor |]. intros key Hkey. inversion Hkey.
Qed.

Lemma grows_trans (a b c : Context) : grows a b -> grows b c -> grows a c.
Proof.
  intros [Hab (m1 & S1 & N1 & K1)] [Hbc (m2 & S2 & N2 & K2)].
  split; [set_solver|]. exists (m1 ++ m2).
  split; [now rewrite S2, S1, app_assoc|]. rewrite unitKeys_app. split.
  - apply NoDup_app. repeat split; auto.
    intros k Hk1 Hk2. apply K1 in Hk1 as [_ Hb]. apply K2 in Hk2 as [Hnb _]. auto.
  - intros k Hk. apply elem_of_app in Hk as [Hk|Hk].
    + apply K1 in Hk as [? ?]. split; [auto | set_solver].
    + apply K2 in Hk as [? ?]. split; [set_solver | auto].
Qed.

(** A step with a single input, added under a trace label. *)
Lemma grows_input_step (id : string) (step : BuildStep) (ctx ctx' : Context) :
  is_Some (step_In step) ->
  WithTrace id (AddBuildStep step) ctx = Ok ctx' ->
  grows ctx ctx'.
Proof.
  intros [src Hsrc] E. cbn in E. injection E as <-. split; [reflexivity|].
  exists [step]. cbn. unfold unitKeys. cbn. rewrite Hsrc.
  split; [|split]; [reflexivity | constructor |]. intros key Hkey. inversion Hkey.
Qed.

Lemma WithTrace_Ok (id : string) (f : Context -> Result Context) (ctx ctx' : Context) :
  WithTrace id f ctx = Ok ctx' ->
  exists inner,
    f (mkContext (ctx_built ctx) (ctx_steps ctx) (id :: ctx_trace ctx)) = Ok inner
    /\ ctx' = mkContext (ctx_built inner) (ctx_steps inner) (ctx_trace ctx).
Proof.
  unfold WithTrace. intros E. bind_inv E. injection E as <-. eauto.
Qed.

Lemma grows_WithTrace (id : string) (f : Context -> Result Context)
    (ctx ctx' : Context) :
  (forall c c', f c = Ok c' -> grows c c') ->
  WithTrace id f ctx = Ok ctx' ->
  grows ctx ctx'.
Proof.
  intros Hf E. apply WithTrace_Ok in E as (inner & E & ->).
  apply Hf in E. exact E.
Qed.

Lemma ObjectFile_Build_grows (obj : ObjectFile T) (ctx ctx' : Context) :
  ObjectFile_Build obj ctx = Ok ctx' -> grows ctx ctx'.
Proof.
  unfold ObjectFile_Build. intros E. bind_inv E. bind_inv E.
  eapply grows_input_step; [|exact E]. cbn. eauto.
Qed.

Lemma BlobObject_Build_grows (blob : BlobObject T) (ctx ctx' : Context) :
  BlobObject_Build blob ctx = Ok ctx' -> grows ctx ctx'.
Proof.
  unfold BlobObject_Build. intros E. bind_inv E.
  apply WithTrace_Ok in E as (inner & E & ->).
  bind_inv E. bind_inv E. cbn in E. injection E as <-.
  split; [reflexivity|]. cbn. eexists [_]. unfold unitKeys. cbn.
  split; [|split]; [reflexivity | constructor |]. intros key Hkey. inversion Hkey.
Qed.

Lemma compileEach_grows (includes : list Path) (flags : list string)
    (toolchain : option T) (srcs : list Path) :
  forall (objs : list Path) (ctx : Context) (r : list Path * Context),
    compileEach includes flags toolchain srcs objs ctx = Ok r -> grows ctx r.2.
Proof.
  induction srcs as [|src rest IH]; intros objs ctx r E; cbn in E.
  - injection E as <-. apply grows_refl.
  - bind_inv E. bind_inv E. apply ObjectFile_Build_grows in Hx.
    eapply grows_trans; eauto.
Qed.

Lemma buildBlobs_grows (toolchain : option T) (blobs : list Path) :
  forall (objs : list Path) (ctx : Context) (r : list Path * Context),
    buildBlobs toolchain blobs objs ctx = Ok r -> grows ctx r.2.
Proof.
  induction blobs as [|blob rest IH]; intros objs ctx r E; cbn in E.
  - injection E as <-. apply grows_refl.
  - bind_inv E. bind_inv E. apply BlobObject_Build_grows in Hx.
    eapply grows_trans; eauto.
Qed.

Lemma buildEach_grows (Build : Library T -> Context -> Result Context)
    (deps : list (Library T)) :
  (forall lib c c', Build lib c = Ok c' -> grows c c') ->
  forall ctx ctx', buildEach Build deps ctx = Ok ctx' -> grows ctx ctx'.
Proof.
  intros HB. induction deps as [|d rest IH]; intros ctx ctx' E; cbn in E.
  - injection E as <-. apply grows_refl.
  - bind_inv E. eapply grows_trans; eauto.
Qed.

Lemma Library_Build_with_grows (build : Library T -> Context -> Result Context)
    (lib : Library T) (ctx ctx' : Context) :
  (forall l c c', build l c = Ok c' -> grows c c') ->
  Library_Build_with build lib ctx = Ok ctx' -> grows ctx ctx'.
Proof.
  intros Hb E. unfold Library_Build_with in E. bind_inv E.
  eapply grows_WithTrace; [|exact E]. apply Hb.
Qed.

(** What [Library.build] does once the path is found not to be built. *)
Lemma Library_build_unfold (fuel : nat) (lib : Library T) (out : Path) (ctx : Context) :
  lib_Out lib = Some out ->
  Library_build (S fuel) lib ctx
  = if bool_decide (Absolute out ∈ ctx_built ctx)
    then Ok (Built (Absolute out) ctx).2
    else
      let ctx := (Built (Absolute out) ctx).2 in
      let! toolchain := toolchainOrDefault (lib_Toolchain lib) in
      let! deps := collectDepsWithToolchain (S fuel) (Some toolchain)
                     (depsOf store (tcStdDeps toolchain) ++ [DepLibrary lib]) in
      let! ctx := buildEach (Library_Build_with (Library_build fuel)) deps ctx in
      let! compiled := compileSources ctx (lib_Srcs lib) (lib_CompilerFlags lib)
                         deps (Some toolchain) in
      let! blobs := buildBlobs (Some toolchain) (lib_Blobs lib)
                      (compiled.1 ++ lib_Objs lib) compiled.2 in
      AddBuildStep
        (mkBuildStep out None None blobs.1
           (if lib_Shared lib then tcSharedLibrary toolchain out blobs.1
            else tcStaticLibrary toolchain out blobs.1)
           (if lib_Shared lib
            then Sprintf "LD (toolchain: %s) %s"
                   [StrArg (tcName toolchain); StrArg (Relative out)]
            else Sprintf "AR (toolchain: %s) %s"
                   [StrArg (tcName toolchain); StrArg (Relative out)]))
        blobs.2.
Proof.
  intros Hout. cbn [Library_build]. rewrite Hout. unfold Built. cbv beta iota.
  cbn [snd]. reflexivity.
Qed.

Lemma Library_build_grows (fuel : nat) :
  forall (lib : Library T) (ctx ctx' : Context),
    Library_build fuel lib ctx = Ok ctx' ->
    grows ctx ctx'
    /\ exists out, lib_Out lib = Some out /\ Absolute out ∈ ctx_built ctx'.
Proof.
  induction fuel as [|fuel IH]; [discriminate|]. intros lib ctx ctx' E.
  destruct (lib_Out lib) as [out|] eqn:Hout; [|cbn in E; rewrite Hout in E; discriminate].
  rewrite (Library_build_unfold _ _ _ _ Hout) in E.
  assert (Hreg : grows ctx (Built (Absolute out) ctx).2).
  { split; [cbn; set_solver|]. exists []. cbn. rewrite app_nil_r.
    split; [reflexivity|]. split; [constructor|]. intros k Hk. inversion Hk. }
  case_bool_decide as Hbuilt.
  - injection E as <-. split; [exact Hreg|]. exists out. cbn. split; [auto | set_solver].
  - cbv zeta in E. bind_inv E. bind_inv E. bind_inv E. bind_inv E. bind_inv E.
    rename x1 into ctxA, x2 into compiled, x3 into blobs.
    assert (HA : grows (Built (Absolute out) ctx).2 ctxA).
    { eapply buildEach_grows; [|exact Hx1]. intros l c c' Hl.
      eapply Library_Build_with_grows; [|exact Hl].
      intros l0 c0 c1 Hl0. exact (proj1 (IH _ _ _ Hl0)). }
    assert (HB : grows ctxA compiled.2) by (eapply compileEach_grows; exact Hx2).
    assert (HC : grows compiled.2 blobs.2) by (eapply buildBlobs_grows; exact Hx3).
    pose proof (grows_trans _ _ _ HA (grows_trans _ _ _ HB HC)) as [Hsub (m & Hm & ND & HK)].
    cbn in E. injection E as <-. cbn in Hsub, HK.
    split; [|exists out; cbn; split; [auto | set_solver]].
    split; [cbn; set_solver|]. exists (m ++ [mkBuildStep out None None blobs.1
       (if lib_Shared lib then tcSharedLibrary x out blobs.1
        else tcStaticLibrary x out blobs.1)
       (if lib_Shared lib
        then Sprintf "LD (toolchain: %s) %s" [StrArg (tcName x); StrArg (Relative out)]
        else Sprintf "AR (toolchain: %s) %s" [StrArg (tcName x); StrArg (Relative out)])]).
    cbn. split; [now rewrite Hm, <- app_assoc|].
    rewrite unitKeys_app. cbn. split.
    + apply NoDup_app. repeat split; auto.
      * intros k Hk Hk'. apply list_elem_of_singleton in Hk'. subst k.
        apply HK in Hk as [Hk _]. set_solver.
      * apply NoDup_singleton.
    + intros k Hk. apply elem_of_app in Hk as [Hk|Hk].
      * apply HK in Hk as [Hk ?]. split; [set_solver | auto].
      * apply list_elem_of_singleton in Hk. subst k. split; [auto | set_solver].
Qed.

Lemma Library_Build_grows (fuel : nat) (lib : Library T) (ctx ctx' : Context) :
  Library_Build fuel lib ctx = Ok ctx' ->
  grows ctx ctx'
  /\ exists out, lib_Out lib = Some out /\ Absolute out ∈ ctx_built ctx'.
Proof.
  intros E. split.
  - eapply Library_Build_with_grows; [|exact E].
    intros l0 c0 c1 Hl0. exact (proj1 (Library_build_grows _ _ _ _ Hl0)).
  - unfold Library_Build, Library_Build_with in E. bind_inv E.
    apply WithTrace_Ok in E as (inner & E & ->).
    apply Library_build_grows in E as [_ E]. exact E.
Qed.


(** C7, at a Library and a Binary without output path. [Library.Build]
    calls [Relative] on the nil path to label its trace, which panics
    before [build] and its check are entered; [Binary.Build] checks first
    and reports the fatal error. Neither adds a step. *)
Theorem build_without_output_path (fuel : nat) (lib : Library T) (ctx : Context)
    (srcs : list Path) (compilerFlags linkerFlags : list string) (deps : DepSlice)
    (script : option Path) (toolchain : option T) :
  Library_Build fuel (setOut lib None) ctx = Panic
  /\ Library_build (S fuel) (setOut lib None) ctx
     = Fatal "Out field is required for cc.Library"
  /\ Binary_Build fuel
       (mkBinary None srcs compilerFlags linkerFlags deps script toolchain) ctx
     = Fatal "Out field is required for cc.Binary".
Proof. repeat split. Qed.

(** C8, at a BlobObject without toolchain. [BlobObject.Build] resolves the
    default toolchain for the output path and the description, but asks the
    nil field itself for the command: the build never succeeds, and in a
    process where the default resolves it panics, while the same blob with
    the default toolchain written out builds. *)
Theorem blob_object_without_toolchain (input : Path) (ctx : Context) :
  isOk (BlobObject_Build (mkBlobObject input None) ctx) = false
  /\ @BlobObject_Build _ Examples.gcc Examples.host Examples.process
       (mkBlobObject (SourcePath "data.bin") None) Examples.emptyContext
     = Panic
  /\ isOk (@BlobObject_Build _ Examples.gcc Examples.host Examples.process
             (mkBlobObject (SourcePath "data.bin") (Some Examples.NativeGcc))
             Examples.emptyContext)
     = true.
Proof.
  split; [|split; vm_compute; reflexivity].
  unfold BlobObject_Build, BlobObject_out, WithTrace. cbn.
  destruct DefaultToolchain; reflexivity.
Qed.

(** An ObjectFile without toolchain is built as with the default one. *)
Lemma ObjectFile_Build_default (src : Path) (includes : list Path)
    (flags : list string) (ctx : Context) :
  ObjectFile_Build (mkObjectFile src includes flags None) ctx
  = let! default := DefaultToolchain in
    ObjectFile_Build (mkObjectFile src includes flags (Some default)) ctx.
Proof.
  unfold ObjectFile_Build, ObjectFile_out. cbn.
  destruct DefaultToolchain; reflexivity.
Qed.

(** *** Binaries *)

Lemma partitionLibs_spec (deps : list (Library T)) :
  forall (ins alwaysLinkLibs otherLibs : list Path)
         (r : list Path * list Path * list Path),
    partitionLibs deps ins alwaysLinkLibs otherLibs = Ok r ->
    r = (ins ++ outsOf deps,
         alwaysLinkLibs ++ outsOf (List.filter lib_AlwaysLink deps),
         otherLibs ++ outsOf (List.filter (fun dep => negb (lib_AlwaysLink dep)) deps))
    /\ Forall (fun dep => is_Some (lib_Out dep)) deps.
Proof.
  induction deps as [|dep rest IH]; intros ins al ot r E; cbn in E.
  - injection E as <-. cbn. now rewrite !app_nil_r.
  - destruct (lib_Out dep) as [out|] eqn:Hout; cbn in E; [|discriminate].
    unfold outsOf. cbn. rewrite Hout.
    destruct (lib_AlwaysLink dep); cbn; apply IH in E as [-> HF]; cbn;
      try rewrite Hout; rewrite <- ?app_assoc; cbn; (split; [reflexivity|]);
      constructor; eauto.
Qed.

(** C6. The step that [Binary.build] adds last carries the command the
    toolchain generates from the closure of the binary: the always-link
    group is the output paths of the members of the closure with the
    always-link flag, the other group the output paths of the members
    without it, each in the order of the closure, and every member has an
    output path. The gcc toolchain prints the always-link group between
    the whole-archive markers and the other group after the end marker. *)
Theorem binary_link_brackets_always_link (fuel : nat) (bin : Binary T)
    (ctx ctx' : Context) :
  Binary_build fuel bin ctx = Ok ctx' ->
  (exists toolchain deps out objs step,
     toolchainOrDefault (bin_Toolchain bin) = Ok toolchain
     /\ collectDepsWithToolchain fuel (Some toolchain)
          (depsOf store (bin_Deps bin) ++ depsOf store (tcStdDeps toolchain))
        = Ok deps
     /\ Forall (fun dep => is_Some (lib_Out dep)) deps
     /\ bin_Out bin = Some out
     /\ last (ctx_steps ctx') = Some step
     /\ step_Cmd step
        = tcBinary toolchain out objs
            (outsOf (List.filter lib_AlwaysLink deps))
            (outsOf (List.filter (fun dep => negb (lib_AlwaysLink dep)) deps))
            (bin_LinkerFlags bin) (bin_Script bin))
  /\ (forall (gcc : GccToolchain) (out : Path) (objs alwaysLinkLibs libs : list Path)
             (flags : list string) (script : option Path),
        exists allFlags : list string,
          Gcc_Binary gcc out objs alwaysLinkLibs libs flags script
          = (quote (PathString (gcc_Cxx gcc)) +:+ " -pipe -o "
               +:+ quote (PathString out) +:+ " " +:+ quotedWords objs)
              +:+ " -Wl,-whole-archive " +:+ quotedWords alwaysLinkLibs
              +:+ " -Wl,-no-whole-archive " +:+ quotedWords libs
              +:+ " " +:+ Join allFlags " ").
Proof.
  intros E. split; [|apply gcc_binary_command].
  unfold Binary_build in E. bind_inv E. bind_inv E. bind_inv E. bind_inv E.
  bind_inv E. cbv zeta in E. bind_inv E.
  apply partitionLibs_spec in Hx3 as [-> HF]. cbn in E. cbn in Hx4.
  destruct (bin_Out bin) as [out|] eqn:Hout; [|discriminate].
  injection Hx4 as <-. injection E as <-. cbn.
  exists x, x0, out, x2.1. eexists. repeat split; eauto.
  - apply last_snoc.
  - reflexivity.
Qed.

End Building.

(** ** The properties at the concrete graphs *)

Module Witnesses.
Import Examples.

Lemma collector_lists_each_library_once_witness :
  collectDepsWithToolchain 5 (Some NativeGcc) [DepLibrary top]
  = Ok [top; left; base; right]
  /\ NoDup (keysOf [top; left; base; right])
  /\ firstDiscovery (Some NativeGcc) [DepLibrary top] ∅ [top; left; base; right]
       (list_to_set (keysOf [top; left; base; right])).
Proof.
  split; [vm_compute; reflexivity|].
  pose proof (@collector_lists_each_library_once _ gcc host process (Some NativeGcc) 5
                [DepLibrary top] [top; left; base; right]) as W.
  assert (E : collectDepsWithToolchain 5 (Some NativeGcc) [DepLibrary top]
              = Ok [top; left; base; right]) by (vm_compute; reflexivity).
  destruct (W E) as (ND & _ & FD & _). split; assumption.
Defined.

Lemma compatibility_gating_witness :
  lib_Toolchain pinned = Some arm
  /\ lib_Out pinned = Some (NewOutPath "pinned.a")
  /\ Library_CcLibrary pinned (Some arm) = Ok pinned
  /\ isOk (Library_CcLibrary pinned (Some NativeGcc)) = false.
Proof.
  pose proof (@compatibility_gating _ gcc host process pinned arm arm
                (NewOutPath "pinned.a") eq_refl eq_refl) as (Hyes & _).
  pose proof (@compatibility_gating _ gcc host process pinned arm NativeGcc
                (NewOutPath "pinned.a") eq_refl eq_refl) as (_ & Hno & _).
  split; [reflexivity|]. split; [reflexivity|]. split.
  - apply Hyes. left. reflexivity.
  - rewrite Hno; [reflexivity|].
    intros [E|(accepts & Ha & Hx)]; [discriminate E|].
    injection Ha as <-. discriminate Hx.
Defined.

Lemma multi_toolchain_variants_witness :
  Library_MultipleToolchains foo = Ok fooWrapped
  /\ lib_Out foo = Some (NewOutPath "foo.a")
  /\ DefaultToolchain = Ok NativeGcc
  /\ mtl_CcLibrary fooWrapped (Some NativeGcc) = Ok (setToolchain foo (Some NativeGcc))
  /\ mtl_CcLibrary fooWrapped (Some arm)
     = Ok (setToolchain (setOut foo (Some (NewOutPath "arm/foo.a"))) (Some arm)).
Proof.
  assert (HD : DefaultToolchain = Ok NativeGcc) by (vm_compute; reflexivity).
  pose proof (@multi_toolchain_variants _ gcc host process foo fooWrapped
                (NewOutPath "foo.a") NativeGcc eq_refl eq_refl HD)
    as (Hsame & _ & Hother & _).
  split; [reflexivity|]. split; [reflexivity|]. split; [exact HD|]. split.
  - apply Hsame. reflexivity.
  - apply (Hother arm). discriminate.
Defined.

(** C3 as stated fails: under the process default the wrapper of a Library
    pinned to [arm] does not resolve to that Library, but to a copy bound to
    the default toolchain. *)
Lemma multi_toolchain_default_is_not_unchanged :
  DefaultToolchain = Ok NativeGcc
  /\ mtl_CcLibrary wrapped (Some NativeGcc) = Ok (setToolchain pinned (Some NativeGcc))
  /\ mtl_CcLibrary wrapped (Some NativeGcc) <> Ok pinned.
Proof.
  split; [vm_compute; reflexivity|]. split; [vm_compute; reflexivity|].
  intros E.
  apply (f_equal (fun r => match r with
                           | Ok lib => gcc_ToolchainName <$> lib_Toolchain lib
                           | _ => None
                           end)) in E.
  vm_compute in E. discriminate E.
Qed.


Lemma binary_link_brackets_always_link_witness :
  exists ctx' step,
    Binary_build 6 app emptyContext = Ok ctx'
    /\ last (ctx_steps ctx') = Some step
    /\ step_Cmd step
       = Gcc_Binary NativeGcc (NewOutPath "app") [NewOutPath "native-gcc/main.o"]
           [NewOutPath "left.a"] [NewOutPath "base.a"; NewOutPath "right.a"] [] None.
Proof.
  destruct (Binary_build 6 app emptyContext) as [ctx'| | |] eqn:E;
    [|vm_compute in E; discriminate E ..].
  destruct (@binary_link_brackets_always_link _ gcc host process 6 app emptyContext ctx' E)
    as ((toolchain & deps & out & objs & step & Htc & Hdeps & _ & Hout & Hlast & Hcmd) & _).
  exists ctx', step. split; [reflexivity|]. split; [exact Hlast|].
  vm_compute in E. injection E as <-. vm_compute in Hlast. injection Hlast as <-.
  vm_compute. reflexivity.
Defined.

Lemma plain_library_resolves_to_itself_witness :
  toolchainOrDefault (Some testing) = Ok testing
  /\ toolchainOrDefault (lib_Toolchain base) = Ok NativeGcc
  /\ ToolchainAccepts testing NativeGcc = true
  /\ Library_CcLibrary base (Some testing) = Ok base.
Proof.
  assert (Hown : toolchainOrDefault (lib_Toolchain base) = Ok NativeGcc)
    by (vm_compute; reflexivity).
  split; [reflexivity|]. split; [exact Hown|]. split; [reflexivity|].
  apply (@plain_library_resolves_to_itself _ gcc host process base (Some testing)
           testing NativeGcc eq_refl Hown eq_refl).
Defined.

End Witnesses.

(** * Further properties *)

(** ** The registry and the default toolchain *)

Section Registry.
Context {T : Type} `{Toolchain T} `{Host} `{Process T}.

(** X1. Registration keeps the names of the registry unique: it succeeds
    exactly on a name that is free, after which the name resolves to the
    registered toolchain, every other name resolves as before, and a second
    registration under that name is a fatal error. *)
Theorem register_toolchain_keeps_names_unique (toolchain : T)
    (registry : gmap string T) :
  match RegisterToolchain toolchain registry with
  | Ok registry' =>
      registry !! tcName toolchain = None
      /\ registry' !! tcName toolchain = Some toolchain
      /\ (forall name, name <> tcName toolchain -> registry' !! name = registry !! name)
      /\ (forall again, tcName again = tcName toolchain ->
            isOk (RegisterToolchain again registry') = false)
  | Fatal _ => is_Some (registry !! tcName toolchain)
  | _ => False
  end.
Proof.
  unfold RegisterToolchain.
  destruct (registry !! tcName toolchain) as [old|] eqn:Hold; [eauto|].
  split; [reflexivity|]. split; [apply lookup_insert_eq|]. split.
  - intros name Hne. apply lookup_insert_ne. congruence.
  - intros again Hname. rewrite Hname, lookup_insert_eq. reflexivity.
Qed.

Global Instance string_le_total : Total string_le.
Proof. intros a b. apply String.leb_total. Qed.

(** X2. The default toolchain is the toolchain registered under the value
    of the flag, and nothing else; when no toolchain is registered under
    it, the call is a fatal error whose message lists every registered
    name once, quoted, in sorted order. *)
Theorem default_toolchain_resolution :
  (forall toolchain,
     DefaultToolchain = Ok toolchain
     <-> toolchains !! defaultToolchainFlag = Some toolchain)
  /\ (toolchains !! defaultToolchainFlag = None ->
      exists all : list string,
        DefaultToolchain
        = Fatal (Sprintf "No registered toolchain %q. Registered toolchains: %s"
                   [StrArg defaultToolchainFlag; StrArg (Join all ", ")])
        /\ Sorted string_le all
        /\ all ≡ₚ (fun kv : string * T => Sprintf "%q" [StrArg kv.1])
                    <$> map_to_list toolchains
        /\ length all = size toolchains).
Proof.
  unfold DefaultToolchain. split.
  - intros toolchain. destruct (toolchains !! defaultToolchainFlag); split; congruence.
  - intros Hnone. rewrite Hnone. eexists. split; [reflexivity|].
    split; [apply Sorted_merge_sort; apply _|].
    split; [apply merge_sort_Permutation|].
    rewrite merge_sort_Permutation, length_fmap. apply length_map_to_list.
Qed.

End Registry.

(** ** The gcc toolchain *)

Section GccMore.
Context `{Host}.

Lemma compatibleWithName_In (cws : list string) (name : string) :
  compatibleWithName cws name = true <-> In name cws.
Proof.
  induction cws as [|cw rest IH]; cbn; [split; [discriminate | tauto]|].
  destruct (String.eqb_spec cw name) as [->|Hne]; [tauto|].
  rewrite IH. split; [tauto | intros [?|?]; [congruence | assumption]].
Qed.

Lemma gcc_accepts_iff (parent child : GccToolchain) :
  ToolchainAccepts parent child = true
  <-> gcc_ToolchainName parent = gcc_ToolchainName child
      \/ In (gcc_ToolchainName child) (gcc_CompatibleWith parent).
Proof.
  unfold ToolchainAccepts. cbn. unfold Gcc_Name, Gcc_Accepts, Gcc_Name.
  destruct (String.eqb_spec (gcc_ToolchainName parent) (gcc_ToolchainName child));
    [tauto|].
  rewrite compatibleWithName_In. tauto.
Qed.

(** X3. A gcc toolchain accepts the libraries of a toolchain exactly when
    that toolchain has its own name or a name of its list
    [CompatibleWith]. [NewWithStdLib] keeps the list and replaces the name:
    the derived toolchain accepts the libraries of the toolchain it was
    derived from only if that name is the new name or is in the list. *)
Theorem gcc_accepts_own_name_and_listed (parent child : GccToolchain) :
  (ToolchainAccepts parent child = true
   <-> gcc_ToolchainName parent = gcc_ToolchainName child
       \/ In (gcc_ToolchainName child) (gcc_CompatibleWith parent))
  /\ (forall includes deps linkerScript name,
        ToolchainAccepts (Gcc_NewWithStdLib parent includes deps linkerScript name) child
        = true
        <-> name = gcc_ToolchainName child
            \/ In (gcc_ToolchainName child) (gcc_CompatibleWith parent)).
Proof.
  split; [apply gcc_accepts_iff|]. intros. rewrite gcc_accepts_iff. reflexivity.
Qed.

Lemma Gcc_FreestandingFrom_In (lfs : list string) :
  Gcc_FreestandingFrom lfs = true <-> In "-ffreestanding" lfs.
Proof.
  induction lfs as [|lf rest IH]; cbn; [split; [discriminate | tauto]|].
  destruct (String.eqb_spec lf "-ffreestanding") as [->|Hne]; [tauto|].
  rewrite IH. split; [tauto | intros [?|?]; [congruence | assumption]].
Qed.

(** X4. A gcc toolchain is reported freestanding exactly when
    [-ffreestanding] is one of its linker flags; its compiler flags play no
    part. [NewWithStdLib] changes neither this nor the architecture. *)
Theorem gcc_freestanding_from_linker_flags (gcc : GccToolchain) :
  (ToolchainFreestanding gcc = true <-> In "-ffreestanding" (gcc_LinkerFlags gcc))
  /\ (forall includes deps linkerScript name,
        ToolchainFreestanding (Gcc_NewWithStdLib gcc includes deps linkerScript name)
        = ToolchainFreestanding gcc
        /\ ToolchainArchitecture (Gcc_NewWithStdLib gcc includes deps linkerScript name)
           = ToolchainArchitecture gcc).
Proof.
  split; [apply Gcc_FreestandingFrom_In|]. intros. split; reflexivity.
Qed.

Lemma append_String (c : ascii) (a b : string) : String c a +:+ b = String c (a +:+ b).
Proof. reflexivity. Qed.

Lemma append_empty_l (a : string) : EmptyString +:+ a = a.
Proof. reflexivity. Qed.

Ltac flatten_append :=
  repeat (rewrite ?append_String, ?append_empty_l, ?append_empty_r, ?append_assoc).

Lemma writeEach_include (paths : list Path) (b : string) :
  writeEach "-I%q " b paths = b +:+ flaggedWords "-I" paths.
Proof.
  revert b. induction paths as [|p paths IH]; intros b; cbn.
  - now rewrite append_empty_r.
  - rewrite IH. fold (flaggedWords "-I" paths). flatten_append. reflexivity.
Qed.

Lemma writeEach_isystem (paths : list Path) (b : string) :
  writeEach "-isystem %q " b paths = b +:+ flaggedWords "-isystem " paths.
Proof.
  revert b. induction paths as [|p paths IH]; intros b; cbn.
  - now rewrite append_empty_r.
  - rewrite IH. fold (flaggedWords "-isystem " paths). flatten_append. reflexivity.
Qed.

(** X5. The compile command of the gcc toolchain names the output and the
    dependency file, then the flags of the toolchain followed by the flags
    of the unit, then every include directory of the unit behind [-I]
    followed by every include directory of the toolchain behind
    [-isystem], each in order, then the source; every path is printed
    through [%q]. *)
Theorem gcc_compile_command (gcc : GccToolchain) (out depfile : Path)
    (flags : list string) (includes : list Path) (src : Path) :
  Gcc_ObjectFile gcc out depfile flags includes src
  = quote (PathString (gcc_Cxx gcc)) +:+ " -pipe -c -o " +:+ quote (PathString out)
      +:+ " -MD -MF " +:+ quote (PathString depfile)
      +:+ " " +:+ Join (gcc_CompilerFlags gcc ++ flags) " "
      +:+ " " +:+ (flaggedWords "-I" includes
                   +:+ flaggedWords "-isystem " (gcc_Includes gcc))
      +:+ " " +:+ quote (PathString src).
Proof.
  unfold Gcc_ObjectFile. rewrite writeEach_isystem, writeEach_include. cbn.
  flatten_append. reflexivity.
Qed.

(** X6. The link command of the gcc toolchain ends with the linker flags of
    the toolchain, then the flags of the binary, then [-T] and the link
    script; the script of the binary, when there is one, is the one named,
    whatever the script of the toolchain is. *)
Theorem gcc_link_script_precedence (gcc : GccToolchain) (out : Path)
    (objs alwaysLinkLibs libs : list Path) (flags : list string)
    (script : option Path) :
  Gcc_Binary gcc out objs alwaysLinkLibs libs flags script
  = (quote (PathString (gcc_Cxx gcc)) +:+ " -pipe -o " +:+ quote (PathString out)
       +:+ " " +:+ quotedWords objs
       +:+ " -Wl,-whole-archive " +:+ quotedWords alwaysLinkLibs
       +:+ " -Wl,-no-whole-archive " +:+ quotedWords libs)
      +:+ " " +:+ Join (gcc_LinkerFlags gcc ++ flags ++ scriptFlags gcc script) " "
  /\ (forall own other,
        Gcc_Binary
          (Gcc_NewWithStdLib gcc (gcc_Includes gcc) (gcc_Deps gcc) other
             (gcc_ToolchainName gcc))
          out objs alwaysLinkLibs libs flags (Some own)
        = Gcc_Binary gcc out objs alwaysLinkLibs libs flags (Some own)).
Proof.
  split;
    [|intros; unfold Gcc_Binary, Gcc_NewWithStdLib;
      cbn [gcc_LinkerFlags gcc_Cxx gcc_LinkerScript]; reflexivity].
  unfold Gcc_Binary, scriptFlags. rewrite !joinQuoted_spec.
  destruct script as [s|]; [|destruct (gcc_LinkerScript gcc) as [s|]]; cbn;
    rewrite ?app_nil_r, <- ?app_assoc; flatten_append; reflexivity.
Qed.

End GccMore.

(** ** Compiling and building *)

Section BuildingMore.
Context {T : Type} `{Toolchain T} `{Host} `{Process T}.

Lemma includesOf_spec (deps : list (Library T)) (includes : list Path) :
  includesOf includes deps = includes ++ mjoin (lib_Includes <$> deps).
Proof.
  revert includes. induction deps as [|dep rest IH]; intros includes; cbn.
  - now rewrite app_nil_r.
  - rewrite IH. now rewrite <- app_assoc.
Qed.

Lemma withSteps_nil (ctx : Context) : withSteps ctx [] = ctx.
Proof. destruct ctx. unfold withSteps. cbn. now rewrite app_nil_r. Qed.

Lemma withSteps_app (ctx : Context) (xs ys : list BuildStep) :
  withSteps (withSteps ctx xs) ys = withSteps ctx (xs ++ ys).
Proof. unfold withSteps. cbn. now rewrite app_assoc. Qed.

Lemma ObjectFile_Build_eq (toolchain : T) (src : Path) (includes : list Path)
    (flags : list string) (ctx : Context) :
  ObjectFile_Build (mkObjectFile src includes flags (Some toolchain)) ctx
  = Ok (withSteps ctx [compileStep toolchain flags includes src]).
Proof. reflexivity. Qed.

Lemma BlobObject_Build_eq (toolchain : T) (blob : Path) (ctx : Context) :
  BlobObject_Build (mkBlobObject blob (Some toolchain)) ctx
  = Ok (withSteps ctx [blobStep toolchain blob]).
Proof. reflexivity. Qed.

Lemma compileEach_eq (toolchain : T) (includes : list Path) (flags : list string)
    (srcs : list Path) :
  forall (objs : list Path) (ctx : Context),
    compileEach includes flags (Some toolchain) srcs objs ctx
    = Ok (objs ++ (objectOf toolchain <$> srcs),
          withSteps ctx (compileStep toolchain flags includes <$> srcs)).
Proof.
  induction srcs as [|src rest IH]; intros objs ctx.
  - cbn. now rewrite app_nil_r, withSteps_nil.
  - cbn [compileEach]. rewrite ObjectFile_Build_eq. cbn [rbind].
    change (ObjectFile_out (mkObjectFile src includes flags (Some toolchain)))
      with (Ok (objectOf toolchain src)).
    cbn [rbind]. rewrite IH, withSteps_app, <- app_assoc. reflexivity.
Qed.

Lemma buildBlobs_eq (toolchain : T) (blobs : list Path) :
  forall (objs : list Path) (ctx : Context),
    buildBlobs (Some toolchain) blobs objs ctx
    = Ok (objs ++ (blobOf toolchain <$> blobs),
          withSteps ctx (blobStep toolchain <$> blobs)).
Proof.
  induction blobs as [|blob rest IH]; intros objs ctx.
  - cbn. now rewrite app_nil_r, withSteps_nil.
  - cbn [buildBlobs]. rewrite BlobObject_Build_eq. cbn [rbind].
    change (BlobObject_out (mkBlobObject blob (Some toolchain)))
      with (Ok (blobOf toolchain blob)).
    cbn [rbind]. rewrite IH, withSteps_app, <- app_assoc. reflexivity.
Qed.

Lemma compileSources_eq (ctx : Context) (srcs : list Path) (flags : list string)
    (deps : list (Library T)) (toolchain : T) :
  compileSources ctx srcs flags deps (Some toolchain)
  = Ok (objectOf toolchain <$> srcs,
        withSteps ctx (compileStep toolchain flags (includePath deps) <$> srcs)).
Proof.
  unfold compileSources. rewrite compileEach_eq, includesOf_spec. reflexivity.
Qed.

(** X7. Compiling the sources of a unit under a toolchain always succeeds.
    It returns one object per source, in the order of the sources, and adds
    one compile step per source, in that order, each with the source as its
    single input; the include search list of every step is the source root
    followed by the include directories of the members of the closure, in
    the order of the closure. The built paths are left as they were. *)
Theorem compile_sources_one_step_per_source (ctx : Context) (srcs : list Path)
    (flags : list string) (deps : list (Library T)) (toolchain : T) :
  compileSources ctx srcs flags deps (Some toolchain)
  = Ok (objectOf toolchain <$> srcs,
        withSteps ctx (compileStep toolchain flags
                         (SourcePath EmptyString :: mjoin (lib_Includes <$> deps))
                       <$> srcs))
  /\ Forall2 (fun src step => step_In step = Some src
                              /\ step_Out step = objectOf toolchain src
                              /\ step_Depfile step = Some (WithExt "d" (step_Out step)))
       srcs
       (compileStep toolchain flags (includePath deps) <$> srcs).
Proof.
  split; [apply compileSources_eq|].
  induction srcs as [|src rest IH]; cbn; constructor; auto.
Qed.

Lemma unitKeys_compileSteps (toolchain : T) (flags : list string) (includes : list Path)
    (srcs : list Path) :
  unitKeys (compileStep toolchain flags includes <$> srcs) = [].
Proof. induction srcs as [|src rest IH]; [reflexivity | exact IH]. Qed.

Lemma unitKeys_blobSteps (toolchain : T) (blobs : list Path) :
  unitKeys (blobStep toolchain <$> blobs) = [].
Proof. induction blobs as [|blob rest IH]; [reflexivity | exact IH]. Qed.

(** A library whose path is built is not built again. *)
Lemma Library_Build_built (fuel : nat) (lib : Library T) (out : Path) (ctx : Context) :
  lib_Out lib = Some out ->
  Absolute out ∈ ctx_built ctx ->
  Library_Build (S fuel) lib ctx = Ok ctx.
Proof.
  intros Hout Hin.
  unfold Library_Build, Library_Build_with, WithTrace. rewrite Hout. cbn [deref rbind].
  rewrite (Library_build_unfold _ _ _ _ Hout). cbn [ctx_built].
  rewrite bool_decide_eq_true_2 by exact Hin. cbn.
  destruct ctx as [built steps trace]. cbn in *. do 2 f_equal. set_solver.
Qed.

(** What a build of a library whose path is not built consists of. *)
Lemma Library_build_inv (fuel : nat) (lib : Library T) (out : Path)
    (ctx ctx' : Context) :
  lib_Out lib = Some out ->
  Absolute out ∉ ctx_built ctx ->
  Library_build (S fuel) lib ctx = Ok ctx' ->
  exists toolchain deps mid,
    toolchainOrDefault (lib_Toolchain lib) = Ok toolchain
    /\ collectDepsWithToolchain (S fuel) (Some toolchain)
         (depsOf store (tcStdDeps toolchain) ++ [DepLibrary lib])
       = Ok deps
    /\ buildEach (Library_Build_with (Library_build fuel)) deps
         (Built (Absolute out) ctx).2
       = Ok mid
    /\ ctx'
       = withSteps mid
           ((compileStep toolchain (lib_CompilerFlags lib) (includePath deps)
               <$> lib_Srcs lib)
            ++ (blobStep toolchain <$> lib_Blobs lib)
            ++ [libraryStep lib toolchain out
                  ((objectOf toolchain <$> lib_Srcs lib) ++ lib_Objs lib
                   ++ (blobOf toolchain <$> lib_Blobs lib))]).
Proof.
  intros Hout Hnew E. rewrite (Library_build_unfold _ _ _ _ Hout) in E.
  rewrite bool_decide_eq_false_2 in E by exact Hnew. cbv zeta in E.
  bind_inv E. bind_inv E. bind_inv E.
  rewrite compileSources_eq in E. cbn [rbind fst snd] in E.
  rewrite buildBlobs_eq in E. cbn [rbind fst snd] in E.
  exists x, x0, x1. repeat split; auto.
  unfold AddBuildStep in E. injection E as <-.
  unfold withSteps, libraryStep. cbn [ctx_built ctx_steps ctx_trace].
  rewrite <- !app_assoc. reflexivity.
Qed.

(** X8. The build of a library whose path is not built ends with the
    compile steps of its own sources, then the steps of its own blobs, then
    exactly one step for the library itself, at its output path: the
    archive command of the toolchain, or its shared-link command when the
    library is shared. The inputs of that step are the objects of the
    sources, then the objects given in [Objs], then the objects of the
    blobs. *)
Theorem library_build_ends_with_its_step (fuel : nat) (lib : Library T) (out : Path)
    (ctx ctx' : Context) :
  lib_Out lib = Some out ->
  Absolute out ∉ ctx_built ctx ->
  Library_build (S fuel) lib ctx = Ok ctx' ->
  exists toolchain deps before,
    toolchainOrDefault (lib_Toolchain lib) = Ok toolchain
    /\ collectDepsWithToolchain (S fuel) (Some toolchain)
         (depsOf store (tcStdDeps toolchain) ++ [DepLibrary lib])
       = Ok deps
    /\ ctx_steps ctx'
       = (ctx_steps ctx ++ before)
           ++ (compileStep toolchain (lib_CompilerFlags lib) (includePath deps)
                 <$> lib_Srcs lib)
           ++ (blobStep toolchain <$> lib_Blobs lib)
           ++ [mkBuildStep out None None
                 ((objectOf toolchain <$> lib_Srcs lib) ++ lib_Objs lib
                  ++ (blobOf toolchain <$> lib_Blobs lib))
                 (if lib_Shared lib
                  then tcSharedLibrary toolchain out
                         ((objectOf toolchain <$> lib_Srcs lib) ++ lib_Objs lib
                          ++ (blobOf toolchain <$> lib_Blobs lib))
                  else tcStaticLibrary toolchain out
                         ((objectOf toolchain <$> lib_Srcs lib) ++ lib_Objs lib
                          ++ (blobOf toolchain <$> lib_Blobs lib)))
                 (if lib_Shared lib
                  then Sprintf "LD (toolchain: %s) %s"
                         [StrArg (tcName toolchain); StrArg (Relative out)]
                  else Sprintf "AR (toolchain: %s) %s"
                         [StrArg (tcName toolchain); StrArg (Relative out)])].
Proof.
  intros Hout Hnew E.
  destruct (Library_build_inv _ _ _ _ _ Hout Hnew E)
    as (toolchain & deps & mid & Htc & Hdeps & Hmid & ->).
  assert (Hgrows : grows (Built (Absolute out) ctx).2 mid).
  { eapply buildEach_grows; [|exact Hmid]. intros l c c' Hl.
    eapply Library_Build_with_grows; [|exact Hl].
    intros l0 c0 c1 Hl0. exact (proj1 (Library_build_grows _ _ _ _ Hl0)). }
  destruct Hgrows as [_ (before & Hbefore & _)]. cbn in Hbefore.
  exists toolchain, deps, before. repeat split; auto.
  cbn. rewrite Hbefore. reflexivity.
Qed.

(** *** Built paths and steps stay in step *)

Lemma inSync_refl (ctx : Context) : inSync ctx ctx.
Proof.
  split; [reflexivity|]. exists []. rewrite app_nil_r. split; [reflexivity|].
  intros key. split; [intros Hk; inversion Hk | intros [? ?]; contradiction].
Qed.

Lemma inSync_trans (a b c : Context) : inSync a b -> inSync b c -> inSync a c.
Proof.
  intros [Hab (m1 & S1 & K1)] [Hbc (m2 & S2 & K2)].
  split; [set_solver|]. exists (m1 ++ m2).
  split; [now rewrite S2, S1, app_assoc|].
  intros key. rewrite unitKeys_app, elem_of_app, K1, K2. split.
  - intros [[? ?]|[? ?]]; split; auto.
  - intros [Hc Ha]. destruct (decide (key ∈ ctx_built b)); auto.
Qed.

Lemma inSync_input_steps (ctx : Context) (more : list BuildStep) :
  unitKeys more = [] -> inSync ctx (withSteps ctx more).
Proof.
  intros Hnone. split; [reflexivity|]. exists more. split; [reflexivity|].
  intros key. rewrite Hnone. cbn.
  split; [intros Hk; inversion Hk | intros [? ?]; contradiction].
Qed.

Lemma buildEach_inSync (Build : Library T -> Context -> Result Context)
    (deps : list (Library T)) :
  (forall lib c c', Build lib c = Ok c' -> inSync c c') ->
  forall ctx ctx', buildEach Build deps ctx = Ok ctx' -> inSync ctx ctx'.
Proof.
  intros HB. induction deps as [|d rest IH]; intros ctx ctx' E; cbn in E.
  - injection E as <-. apply inSync_refl.
  - bind_inv E. eapply inSync_trans; eauto.
Qed.

Lemma Library_Build_with_inSync (build : Library T -> Context -> Result Context)
    (lib : Library T) (ctx ctx' : Context) :
  (forall l c c', build l c = Ok c' -> inSync c c') ->
  Library_Build_with build lib ctx = Ok ctx' -> inSync ctx ctx'.
Proof.
  intros Hb E. unfold Library_Build_with in E. bind_inv E.
  apply WithTrace_Ok in E as (inner & E & ->). apply Hb in E. exact E.
Qed.

Lemma Library_build_inSync (fuel : nat) :
  forall (lib : Library T) (ctx ctx' : Context),
    Library_build fuel lib ctx = Ok ctx' -> inSync ctx ctx'.
Proof.
  induction fuel as [|fuel IH]; [discriminate|]. intros lib ctx ctx' E.
  destruct (lib_Out lib) as [out|] eqn:Hout; [|cbn in E; rewrite Hout in E; discriminate].
  destruct (decide (Absolute out ∈ ctx_built ctx)) as [Hbuilt|Hnew].
  - rewrite (Library_build_unfold _ _ _ _ Hout) in E.
    rewrite bool_decide_eq_true_2 in E by exact Hbuilt. injection E as <-.
    split; [cbn; set_solver|]. exists []. cbn. rewrite app_nil_r. split; [reflexivity|].
    intros key. split; [intros Hk; inversion Hk | intros [? ?]; set_solver].
  - destruct (Library_build_inv _ _ _ _ _ Hout Hnew E)
      as (toolchain & deps & mid & _ & _ & Hmid & ->).
    assert (Hsync : inSync (Built (Absolute out) ctx).2 mid).
    { eapply buildEach_inSync; [|exact Hmid]. intros l c c' Hl.
      eapply Library_Build_with_inSync; [|exact Hl]. apply IH. }
    destruct Hsync as [Hsub (m & Hm & HK)]. cbn in Hsub, Hm, HK.
    split; [cbn; set_solver|]. eexists. cbn. rewrite Hm, <- app_assoc.
    split; [reflexivity|]. intros key.
    rewrite !unitKeys_app, unitKeys_compileSteps, unitKeys_blobSteps. cbn.
    rewrite elem_of_app, HK, list_elem_of_singleton. split.
    + intros [[? ?]| ->]; split; set_solver.
    + intros [Hin Hout']. destruct (decide (key = Absolute out)); [auto|].
      left. split; [auto | set_solver].
Qed.

(** X9. Over a build of a library that returns, the paths newly registered
    as built are exactly the output paths of the archive and link steps
    that were added: no path is left registered without its step, and no
    such step is added for a path that was registered before. *)
Theorem library_build_registers_what_it_builds (fuel : nat) (lib : Library T)
    (ctx ctx' : Context) :
  Library_Build fuel lib ctx = Ok ctx' ->
  ctx_built ctx ⊆ ctx_built ctx'
  /\ exists more,
       ctx_steps ctx' = ctx_steps ctx ++ more
       /\ forall key, key ∈ unitKeys more
                      <-> (key ∈ ctx_built ctx') /\ (key ∉ ctx_built ctx).
Proof.
  intros E. eapply Library_Build_with_inSync; [|exact E]. apply Library_build_inSync.
Qed.

(** *** The default variant of a multi-toolchain library *)

(** X10. The build of a multi-toolchain library is the build of the wrapped
    library bound to the default toolchain, whatever toolchain the wrapped
    library was pinned to; when it returns, the bare base path is
    registered as built. The wrapper of a library without output path
    cannot be made: [MultipleToolchains] reports the fatal error. *)
Theorem multi_toolchain_build_is_default_variant (fuel : nat) (lib : Library T)
    (mtl : multipleToolchainLibrary T) (D : T) (ctx : Context) :
  Library_MultipleToolchains lib = Ok mtl ->
  DefaultToolchain = Ok D ->
  mtl_Build fuel mtl ctx = Library_Build fuel (setToolchain lib (Some D)) ctx
  /\ (forall ctx', mtl_Build fuel mtl ctx = Ok ctx' ->
        exists P, lib_Out lib = Some P /\ Absolute P ∈ ctx_built ctx')
  /\ Library_MultipleToolchains (setOut lib None)
     = Fatal "Out field is required for cc.Library".
Proof.
  intros Hmtl HD. unfold Library_MultipleToolchains in Hmtl.
  destruct (lib_Out lib) as [P|] eqn:HP; [|discriminate]. injection Hmtl as <-.
  assert (E : mtl_Build fuel (mkMultipleToolchainLibrary (Some P) lib) ctx
              = Library_Build fuel (setToolchain lib (Some D)) ctx).
  { unfold mtl_Build, mtl_CcLibrary. rewrite HD. cbn [rbind toolchainOrDefault mtl_lib].
    rewrite String.eqb_refl. reflexivity. }
  split; [exact E|]. split; [|reflexivity].
  intros ctx' Hb. rewrite E in Hb.
  apply Library_Build_grows in Hb as [_ (out & Hout & Hin)].
  cbn in Hout. rewrite HP in Hout. injection Hout as <-. eauto.
Qed.

(** *** Binaries *)

Lemma buildEach_built (fuel : nat) (deps : list (Library T)) :
  forall ctx mid,
    buildEach (Library_Build fuel) deps ctx = Ok mid ->
    forall d, d ∈ deps -> exists o, lib_Out d = Some o /\ Absolute o ∈ ctx_built mid.
Proof.
  induction deps as [|dep rest IH]; intros ctx mid E d Hd; [inversion Hd|].
  cbn in E. bind_inv E. apply elem_of_cons in Hd as [->|Hd]; [|eauto].
  apply Library_Build_grows in Hx as [_ (o & Ho & Hin)].
  exists o. split; [exact Ho|].
  assert (Hg : grows x mid).
  { eapply buildEach_grows; [|exact E]. intros l c c' Hl.
    exact (proj1 (Library_Build_grows _ _ _ _ Hl)). }
  destruct Hg as [Hsub _]. set_solver.
Qed.

Lemma buildEach_done (fuel : nat) (deps : list (Library T)) (ctx : Context) :
  (forall d, d ∈ deps -> exists o, lib_Out d = Some o /\ Absolute o ∈ ctx_built ctx) ->
  buildEach (Library_Build (S fuel)) deps ctx = Ok ctx.
Proof.
  induction deps as [|dep rest IH]; intros Hall; [reflexivity|].
  cbn. destruct (Hall dep) as (o & Ho & Hin); [set_solver|].
  rewrite (Library_Build_built _ _ _ _ Ho Hin). cbn [rbind].
  apply IH. intros d Hd. apply Hall. set_solver.
Qed.

Lemma partitionLibs_Ok (deps : list (Library T)) :
  Forall (fun dep => is_Some (lib_Out dep)) deps ->
  forall ins alwaysLinkLibs otherLibs : list Path,
    partitionLibs deps ins alwaysLinkLibs otherLibs
    = Ok (ins ++ outsOf deps,
          alwaysLinkLibs ++ outsOf (List.filter lib_AlwaysLink deps),
          otherLibs ++ outsOf (List.filter (fun dep => negb (lib_AlwaysLink dep)) deps)).
Proof.
  induction 1 as [|dep rest [out Hout] _ IH]; intros ins al ot.
  - cbn. now rewrite !app_nil_r.
  - cbn [partitionLibs]. rewrite Hout. cbn [deref rbind id].
    unfold outsOf. cbn. rewrite Hout.
    destruct (lib_AlwaysLink dep); cbn; rewrite IH; unfold outsOf; cbn;
      rewrite ?Hout, <- ?app_assoc; reflexivity.
Qed.

Lemma collect_has_out (fuel : nat) (toolchain : option T) (deps : list (Dep T))
    (libs : list (Library T)) :
  collectDepsWithToolchain fuel toolchain deps = Ok libs ->
  Forall (fun lib => is_Some (lib_Out lib)) libs.
Proof.
  intros E. apply collect_firstDiscovery in E. eapply discovery_has_out; eauto.
Qed.

(** [Binary.build], once the closure is known and its members are built. *)
Lemma Binary_build_eq (fuel : nat) (bin : Binary T) (ctx : Context)
    (toolchain : T) (deps : list (Library T)) :
  toolchainOrDefault (bin_Toolchain bin) = Ok toolchain ->
  collectDepsWithToolchain fuel (Some toolchain)
    (depsOf store (bin_Deps bin) ++ depsOf store (tcStdDeps toolchain))
  = Ok deps ->
  Binary_build fuel bin ctx
  = let! mid := buildEach (Library_Build fuel) deps ctx in
    let! out := deref (bin_Out bin) id in
    Ok (withSteps mid
          ((compileStep toolchain (bin_CompilerFlags bin) (includePath deps)
              <$> bin_Srcs bin)
           ++ [binaryStep bin toolchain out deps])).
Proof.
  intros Htc Hdeps. unfold Binary_build. rewrite Htc. cbn [rbind].
  rewrite Hdeps. cbn [rbind].
  destruct (buildEach (Library_Build fuel) deps ctx) as [mid| | |]; cbn [rbind];
    try reflexivity.
  rewrite compileSources_eq. cbn [rbind fst snd].
  rewrite (partitionLibs_Ok deps (collect_has_out _ _ _ _ Hdeps)). cbn [rbind fst snd].
  destruct (bin_Out bin) as [out|]; cbn [deref rbind id]; [|reflexivity].
  unfold AddBuildStep, withSteps, binaryStep, scriptInput.
  cbn [ctx_built ctx_steps ctx_trace]. rewrite app_nil_l.
  assert (Hins : match bin_Script bin with
                 | Some script =>
                     ((objectOf toolchain <$> bin_Srcs bin) ++ outsOf deps) ++ [script]
                 | None =>
                     match tcScript toolchain with
                     | Some script =>
                         ((objectOf toolchain <$> bin_Srcs bin) ++ outsOf deps)
                           ++ [script]
                     | None => (objectOf toolchain <$> bin_Srcs bin) ++ outsOf deps
                     end
                 end
                 = (objectOf toolchain <$> bin_Srcs bin) ++ outsOf deps
                     ++ match bin_Script bin with
                        | Some script => [script]
                        | None =>
                            match tcScript toolchain with
                            | Some script => [script]
                            | None => []
                            end
                        end).
  { destruct (bin_Script bin); [now rewrite <- app_assoc|].
    destruct (tcScript toolchain); [now rewrite <- app_assoc | now rewrite app_nil_r]. }
  rewrite Hins, <- app_assoc. reflexivity.
Qed.

Lemma Binary_build_inv (fuel : nat) (bin : Binary T) (ctx ctx' : Context) :
  Binary_build fuel bin ctx = Ok ctx' ->
  exists toolchain deps out mid,
    toolchainOrDefault (bin_Toolchain bin) = Ok toolchain
    /\ collectDepsWithToolchain fuel (Some toolchain)
         (depsOf store (bin_Deps bin) ++ depsOf store (tcStdDeps toolchain))
       = Ok deps
    /\ bin_Out bin = Some out
    /\ buildEach (Library_Build fuel) deps ctx = Ok mid
    /\ ctx' = withSteps mid
                ((compileStep toolchain (bin_CompilerFlags bin) (includePath deps)
                    <$> bin_Srcs bin)
                 ++ [binaryStep bin toolchain out deps]).
Proof.
  intros E.
  destruct (toolchainOrDefault (bin_Toolchain bin)) as [toolchain| | |] eqn:Htc;
    try (unfold Binary_build in E; rewrite Htc in E; discriminate).
  destruct (collectDepsWithToolchain fuel (Some toolchain)
              (depsOf store (bin_Deps bin) ++ depsOf store (tcStdDeps toolchain)))
    as [deps| | |] eqn:Hdeps;
    try (unfold Binary_build in E; rewrite Htc in E; cbn [rbind] in E;
         rewrite Hdeps in E; discriminate).
  rewrite (Binary_build_eq _ _ _ _ _ Htc Hdeps) in E.
  bind_inv E. destruct (bin_Out bin) as [out|]; [|discriminate].
  cbn [deref rbind id] in E. injection E as <-.
  exists toolchain, deps, out, x. auto.
Qed.

(** X11. The link step that [Binary.build] adds last has as inputs the
    objects of the sources of the binary, then the output paths of the
    members of the closure in closure order, then the link script: the one
    of the binary when there is one, else the one of the toolchain when
    there is one. Before it come the compile steps of the sources, and when
    the build returns every member of the closure is registered as built. *)
Theorem binary_build_inputs (fuel : nat) (bin : Binary T) (ctx ctx' : Context) :
  Binary_build fuel bin ctx = Ok ctx' ->
  exists toolchain deps out before,
    toolchainOrDefault (bin_Toolchain bin) = Ok toolchain
    /\ collectDepsWithToolchain fuel (Some toolchain)
         (depsOf store (bin_Deps bin) ++ depsOf store (tcStdDeps toolchain))
       = Ok deps
    /\ bin_Out bin = Some out
    /\ ctx_steps ctx'
       = (ctx_steps ctx ++ before)
           ++ (compileStep toolchain (bin_CompilerFlags bin) (includePath deps)
                 <$> bin_Srcs bin)
           ++ [binaryStep bin toolchain out deps]
    /\ step_Ins (binaryStep bin toolchain out deps)
       = (objectOf toolchain <$> bin_Srcs bin) ++ outsOf deps
           ++ match bin_Script bin with
              | Some script => [script]
              | None => match tcScript toolchain with
                        | Some script => [script]
                        | None => []
                        end
              end
    /\ (forall d, d ∈ deps ->
          exists o, lib_Out d = Some o /\ Absolute o ∈ ctx_built ctx').
Proof.
  intros E.
  destruct (Binary_build_inv _ _ _ _ E)
    as (toolchain & deps & out & mid & Htc & Hdeps & Hout & Hmid & ->).
  assert (Hg : grows ctx mid).
  { eapply buildEach_grows; [|exact Hmid]. intros l c c' Hl.
    exact (proj1 (Library_Build_grows _ _ _ _ Hl)). }
  destruct Hg as [_ (before & Hbefore & _)].
  exists toolchain, deps, out, before. repeat split; auto.
  - cbn. now rewrite Hbefore.
  - intros d Hd. cbn. eapply buildEach_built; eauto.
Qed.

(** X12. A binary has no build-once guard: when a build of a binary has
    returned, building it again in the resulting context returns as well
    and adds once more the compile step of each of its sources and its
    link step, while the libraries of its closure are not built again. *)
Theorem binary_build_repeats_its_steps (fuel : nat) (bin : Binary T)
    (ctx ctx1 : Context) :
  Binary_build fuel bin ctx = Ok ctx1 ->
  exists before again,
    ctx_steps ctx1 = before ++ again
    /\ length again = S (length (bin_Srcs bin))
    /\ Binary_build fuel bin ctx1 = Ok (withSteps ctx1 again).
Proof.
  intros E.
  destruct (Binary_build_inv _ _ _ _ E)
    as (toolchain & deps & out & mid & Htc & Hdeps & Hout & Hmid & ->).
  eexists (ctx_steps mid), _. split; [reflexivity|]. split.
  - rewrite length_app, length_fmap. cbn. lia.
  - rewrite (Binary_build_eq _ _ _ _ _ Htc Hdeps), Hout.
    destruct fuel as [|fuel]; [discriminate Hdeps|].
    rewrite buildEach_done; [reflexivity|].
    intros d Hd. cbn. eapply buildEach_built; eauto.
Qed.

End BuildingMore.

(** ** More on the dependency collector *)

Section CollectorMore.
Context {T : Type} `{Toolchain T} `{Host} `{Process T}.
Variable toolchain : option T.

(** Collecting from a list of references in two parts. *)
Lemma collectRec_app (fuel : nat) (deps1 deps2 : list (Dep T)) :
  forall visited : gset string,
    collectDepsWithToolchainRec fuel toolchain (deps1 ++ deps2) visited
    = let! first := collectDepsWithToolchainRec fuel toolchain deps1 visited in
      let! second := collectDepsWithToolchainRec fuel toolchain deps2 first.2 in
      Ok (first.1 ++ second.1, second.2).
Proof.
  destruct fuel as [|fuel]; [reflexivity|].
  induction deps1 as [|dep rest IH]; intros visited.
  - rewrite collectRec_nil. cbn [rbind app fst snd].
    destruct (collectDepsWithToolchainRec (S fuel) toolchain deps2 visited)
      as [[l v]| | |]; reflexivity.
  - rewrite <- app_comm_cons, !collectRec_cons.
    destruct (Dep_CcLibrary dep toolchain) as [lib| | |]; cbn [rbind]; try reflexivity.
    destruct (deref (lib_Out lib) Absolute) as [key| | |]; cbn [rbind]; try reflexivity.
    case_bool_decide; [apply IH|].
    destruct (collectDepsWithToolchainRec fuel toolchain _ _) as [sub| | |];
      cbn [rbind]; try reflexivity.
    rewrite IH.
    destruct (collectDepsWithToolchainRec (S fuel) toolchain rest sub.2) as [r1| | |];
      cbn [rbind fst snd]; try reflexivity.
    destruct (collectDepsWithToolchainRec (S fuel) toolchain deps2 r1.2) as [r2| | |];
      cbn [rbind fst snd]; try reflexivity.
    now rewrite <- app_comm_cons, <- app_assoc.
Qed.

(** X13. The closure of a list of references that is made of two parts
    starts with the closure of the first part; what follows is what the
    collector finds from the second part once the keys of the first
    closure are visited. (A library build seeds the collector with the
    standard dependencies of the toolchain and then the library, a binary
    build with the dependencies of the binary and then the standard ones.) *)
Theorem collector_of_appended_seeds (fuel : nat) (deps1 deps2 : list (Dep T))
    (libs : list (Library T)) :
  collectDepsWithToolchain fuel toolchain (deps1 ++ deps2) = Ok libs ->
  exists libs1 libs2,
    collectDepsWithToolchain fuel toolchain deps1 = Ok libs1
    /\ libs = libs1 ++ libs2
    /\ collectDepsWithToolchainRec fuel toolchain deps2 (list_to_set (keysOf libs1))
       = Ok (libs2, list_to_set (keysOf libs))
    /\ (forall key, key ∈ keysOf libs2 -> key ∉ keysOf libs1).
Proof.
  unfold collectDepsWithToolchain. intros E. rewrite collectRec_app in E.
  destruct (collectDepsWithToolchainRec fuel toolchain deps1 ∅) as [[l1 v1]| | |] eqn:E1;
    try discriminate.
  cbn [rbind fst snd] in E.
  destruct (collectDepsWithToolchainRec fuel toolchain deps2 v1) as [[l2 v2]| | |] eqn:E2;
    try discriminate.
  cbn in E. injection E as <-.
  pose proof (discovery_seen _ _ _ _ _ (collectRec_firstDiscovery _ _ _ _ _ E1)) as Hv1.
  pose proof (collectRec_firstDiscovery _ _ _ _ _ E2) as Hd2.
  pose proof (discovery_seen _ _ _ _ _ Hd2) as Hv2.
  pose proof (discovery_NoDup _ _ _ _ _ Hd2) as [_ Hfresh].
  cbn in Hv1, Hv2, Hfresh.
  assert (Ev1 : v1 = list_to_set (keysOf l1)) by (rewrite Hv1; set_solver).
  assert (Ev2 : v2 = list_to_set (keysOf (l1 ++ l2))).
  { rewrite Hv2, Ev1, keysOf_app. set_solver. }
  exists l1, l2. cbn. rewrite <- Ev1, <- Ev2. repeat split; auto.
  intros key Hk. apply Hfresh in Hk. rewrite Ev1 in Hk. set_solver.
Qed.

Lemma Dep_CcLibrary_accepted (dep : Dep T) (lib : Library T) (requester : T) :
  toolchainOrDefault toolchain = Ok requester ->
  Dep_CcLibrary dep toolchain = Ok lib ->
  exists own, toolchainOrDefault (lib_Toolchain lib) = Ok own
              /\ ToolchainAccepts requester own = true.
Proof.
  intros Hreq E. destruct dep as [l|mtl]; cbn in E.
  - unfold Library_CcLibrary in E. rewrite Hreq in E. cbn [rbind] in E.
    destruct (toolchainOrDefault (lib_Toolchain l)) as [own| | |] eqn:Hown;
      try discriminate.
    cbn [rbind] in E. destruct (ToolchainAccepts requester own) eqn:Hacc; cbn in E.
    + injection E as <-. eauto.
    + destruct (lib_Out l); discriminate.
  - unfold mtl_CcLibrary in E. rewrite Hreq in E. cbn [rbind] in E.
    bind_inv E. bind_inv E. injection E as <-. cbn. exists requester.
    split; [reflexivity|]. unfold ToolchainAccepts. now rewrite String.eqb_refl.
Qed.

Lemma discovery_resolved (deps : list (Dep T)) (seen : gset string)
    (found : list (Library T)) (seen' : gset string) :
  firstDiscovery toolchain deps seen found seen' ->
  forall lib, lib ∈ found -> exists dep, Dep_CcLibrary dep toolchain = Ok lib.
Proof.
  induction 1 as
    [v|dep rest lib key v v' l Hlib Hkey Hin _ IH
      |dep rest lib key v v1 v2 below l Hlib Hkey Hnin _ IH1 _ IH2];
    intros x Hx.
  - inversion Hx.
  - auto.
  - rewrite elem_of_cons, elem_of_app in Hx. destruct Hx as [->|[Hx|Hx]]; eauto.
Qed.

(** X14. Every library of a closure collected for a requesting toolchain is
    one the requesting toolchain accepts: its own toolchain (the pinned
    one, or the default) has the name of the requesting toolchain or is
    admitted by it. This holds for the transitive members too, which are
    checked against the requesting toolchain and not against the toolchain
    of the library that refers to them. *)
Theorem closure_is_accepted_by_requester (fuel : nat) (deps : list (Dep T))
    (libs : list (Library T)) (requester : T) :
  toolchainOrDefault toolchain = Ok requester ->
  collectDepsWithToolchain fuel toolchain deps = Ok libs ->
  forall lib, lib ∈ libs ->
    exists own, toolchainOrDefault (lib_Toolchain lib) = Ok own
                /\ ToolchainAccepts requester own = true.
Proof.
  intros Hreq E lib Hlib. apply collect_firstDiscovery in E.
  destruct (discovery_resolved _ _ _ _ E lib Hlib) as (dep & Hdep).
  eapply Dep_CcLibrary_accepted; eauto.
Qed.

Lemma resolved_resolves_to_itself (dep : Dep T) (lib : Library T) :
  Dep_CcLibrary dep toolchain = Ok lib ->
  Dep_CcLibrary (DepLibrary lib) toolchain = Ok lib.
Proof.
  intros E.
  assert (Hreq : exists requester, toolchainOrDefault toolchain = Ok requester).
  { destruct dep as [l|mtl]; cbn in E.
    - unfold Library_CcLibrary in E. bind_inv E. eauto.
    - unfold mtl_CcLibrary in E. bind_inv E. eauto. }
  destruct Hreq as (requester & Hreq).
  destruct (Dep_CcLibrary_accepted _ _ _ Hreq E) as (own & Hown & Hacc).
  cbn. unfold Library_CcLibrary. rewrite Hreq. cbn [rbind]. rewrite Hown. cbn [rbind].
  now rewrite Hacc.
Qed.

Lemma discovery_skips_seen (skipped more : list (Dep T)) (seen : gset string)
    (found : list (Library T)) (seen' : gset string) :
  (forall dep, dep ∈ skipped ->
     exists lib key, Dep_CcLibrary dep toolchain = Ok lib /\ keyOf lib = Some key
                     /\ key ∈ seen) ->
  firstDiscovery toolchain more seen found seen' ->
  firstDiscovery toolchain (skipped ++ more) seen found seen'.
Proof.
  intros Hall Hmore. induction skipped as [|dep rest IH]; [exact Hmore|].
  destruct (Hall dep) as (lib & key & Hlib & Hkey & Hin); [set_solver|].
  cbn. eapply discover_skip; eauto. apply IH. intros d Hd. apply Hall. set_solver.
Qed.

Lemma discovery_of_found (deps : list (Dep T)) (seen : gset string)
    (found : list (Library T)) (seen' : gset string) :
  firstDiscovery toolchain deps seen found seen' ->
  firstDiscovery toolchain (DepLibrary <$> found) seen found seen'.
Proof.
  induction 1 as
    [v|dep rest lib key v v' l Hlib Hkey Hin _ IH
      |dep rest lib key v v1 v2 below l Hlib Hkey Hnin Hbelow _ _ IH2].
  - constructor.
  - exact IH.
  - rewrite fmap_cons, fmap_app.
    eapply discover_new; eauto using resolved_resolves_to_itself.
    apply discovery_skips_seen; [|exact IH2].
    intros dep' Hdep'. apply list_elem_of_fmap in Hdep' as (b & -> & Hb).
    destruct (discovery_resolved _ _ _ _ Hbelow b Hb) as (from & Hfrom).
    pose proof (discovery_has_out _ _ _ _ _ Hbelow) as Houts.
    rewrite Forall_forall in Houts. destruct (Houts b Hb) as (o & Ho).
    exists b, (Absolute o). split; [eauto using resolved_resolves_to_itself|].
    assert (Hk : keyOf b = Some (Absolute o)) by (unfold keyOf; now rewrite Ho).
    split; [exact Hk|].
    rewrite (discovery_seen _ _ _ _ _ Hbelow).
    apply elem_of_union_r, elem_of_list_to_set, keysOf_elem. eauto.
Qed.

(** X15. A closure is closed: collecting again, for the same toolchain,
    from the libraries of a closure taken as the references yields the
    same list, in the same order. *)
Theorem collector_is_idempotent (fuel : nat) (deps : list (Dep T))
    (libs : list (Library T)) :
  collectDepsWithToolchain fuel toolchain deps = Ok libs ->
  exists enough, forall fuel', enough <= fuel' ->
    collectDepsWithToolchain fuel' toolchain (DepLibrary <$> libs) = Ok libs.
Proof.
  intros E. apply collect_firstDiscovery, discovery_of_found in E.
  apply firstDiscovery_collectRec in E as (enough & E).
  exists (S enough). intros fuel' Hle. unfold collectDepsWithToolchain.
  now rewrite (collectRec_fuel_le _ _ fuel' _ _ _ E Hle).
Qed.

End CollectorMore.

(** ** Dependencies are built first *)

Section Order.
Context {T : Type} `{Toolchain T} `{Host} `{Process T}.



End Order.

(** ** The further properties at the concrete graphs *)

Module MoreWitnesses.
Import Examples MoreExamples.

Lemma default_toolchain_resolution_witness :
  @toolchains _ strayProcess !! @defaultToolchainFlag _ strayProcess = None
  /\ exists all : list string,
       @DefaultToolchain _ host strayProcess
       = Fatal (Sprintf "No registered toolchain %q. Registered toolchains: %s"
                  [StrArg "clang"; StrArg (Join all ", ")])
       /\ length all = 3.
Proof.
  assert (Hnone : @toolchains _ strayProcess !! @defaultToolchainFlag _ strayProcess = None)
    by (vm_compute; reflexivity).
  split; [exact Hnone|].
  destruct (@default_toolchain_resolution _ host strayProcess) as (_ & Hfatal).
  destruct (Hfatal Hnone) as (all & E & _ & _ & Hlen).
  exists all. split; [exact E|]. rewrite Hlen. vm_compute. reflexivity.
Defined.

Lemma library_build_ends_with_its_step_witness :
  lib_Out full = Some (NewOutPath "full.a")
  /\ (Absolute (NewOutPath "full.a") ∉ ctx_built emptyContext)
  /\ exists ctx' before step,
       Library_build 6 full emptyContext = Ok ctx'
       /\ ctx_steps ctx' = before ++ [step]
       /\ step_Out step = NewOutPath "full.a"
       /\ length (step_Ins step) = 3.
Proof.
  assert (Hnew : Absolute (NewOutPath "full.a") ∉ ctx_built emptyContext)
    by apply not_elem_of_empty.
  split; [reflexivity|]. split; [exact Hnew|].
  destruct (Library_build 6 full emptyContext) as [ctx'| | |] eqn:E;
    [|vm_compute in E; discriminate E ..].
  destruct (@library_build_ends_with_its_step _ gcc host process 5 full
              (NewOutPath "full.a") emptyContext ctx' eq_refl Hnew E)
    as (toolchain & deps & before & _ & _ & Hsteps).
  exists ctx'. eexists _, _. split; [reflexivity|]. split.
  - rewrite Hsteps, !app_assoc. reflexivity.
  - split; reflexivity.
Defined.

Lemma library_build_registers_what_it_builds_witness :
  exists ctx',
    Library_Build 6 top emptyContext = Ok ctx'
    /\ ctx_built emptyContext ⊆ ctx_built ctx'.
Proof.
  destruct (Library_Build 6 top emptyContext) as [ctx'| | |] eqn:E;
    [|vm_compute in E; discriminate E ..].
  exists ctx'. split; [reflexivity|].
  exact (proj1 (@library_build_registers_what_it_builds _ gcc host process 6 top
                  emptyContext ctx' E)).
Defined.

Lemma multi_toolchain_build_is_default_variant_witness :
  Library_MultipleToolchains foo = Ok fooWrapped
  /\ DefaultToolchain = Ok NativeGcc
  /\ mtl_Build 6 fooWrapped emptyContext
     = Library_Build 6 (setToolchain foo (Some NativeGcc)) emptyContext.
Proof.
  assert (HD : DefaultToolchain = Ok NativeGcc) by (vm_compute; reflexivity).
  split; [reflexivity|]. split; [exact HD|].
  exact (proj1 (@multi_toolchain_build_is_default_variant _ gcc host process 6 foo
                  fooWrapped NativeGcc emptyContext eq_refl HD)).
Defined.

Lemma binary_build_inputs_witness :
  exists (ctx' : Context) (deps : list (Library GccToolchain)),
    Binary_build 6 app emptyContext = Ok ctx'
    /\ (forall d, d ∈ deps ->
          exists o, lib_Out d = Some o /\ Absolute o ∈ ctx_built ctx')
    /\ length deps = 3.
Proof.
  destruct (Binary_build 6 app emptyContext) as [ctx'| | |] eqn:E;
    [|vm_compute in E; discriminate E ..].
  destruct (@binary_build_inputs _ gcc host process 6 app emptyContext ctx' E)
    as (toolchain & deps & out & before & Htc & Hdeps & _ & _ & _ & Hbuilt).
  exists ctx', deps. split; [reflexivity|]. split; [exact Hbuilt|].
  vm_compute in Htc. injection Htc as <-. vm_compute in Hdeps. injection Hdeps as <-.
  reflexivity.
Defined.

Lemma binary_build_repeats_its_steps_witness :
  exists ctx1 again,
    Binary_build 6 app emptyContext = Ok ctx1
    /\ length again = 2
    /\ Binary_build 6 app ctx1 = Ok (withSteps ctx1 again).
Proof.
  destruct (Binary_build 6 app emptyContext) as [ctx1| | |] eqn:E;
    [|vm_compute in E; discriminate E ..].
  destruct (@binary_build_repeats_its_steps _ gcc host process 6 app emptyContext ctx1 E)
    as (before & again & _ & Hlen & Hagain).
  exists ctx1, again. split; [reflexivity|]. split; [exact Hlen | exact Hagain].
Defined.

Lemma collector_of_appended_seeds_witness :
  collectDepsWithToolchain 5 (Some NativeGcc) ([DepLibrary left] ++ [DepLibrary right])
  = Ok [left; base; right]
  /\ exists libs1 libs2,
       collectDepsWithToolchain 5 (Some NativeGcc) [DepLibrary left] = Ok libs1
       /\ [left; base; right] = libs1 ++ libs2.
Proof.
  assert (E : collectDepsWithToolchain 5 (Some NativeGcc)
                ([DepLibrary left] ++ [DepLibrary right])
              = Ok [left; base; right]) by (vm_compute; reflexivity).
  split; [exact E|].
  destruct (@collector_of_appended_seeds _ gcc host process (Some NativeGcc) 5
              [DepLibrary left] [DepLibrary right] [left; base; right] E)
    as (libs1 & libs2 & H1 & H2 & _).
  exists libs1, libs2. split; assumption.
Defined.

Lemma closure_is_accepted_by_requester_witness :
  toolchainOrDefault (Some testing) = Ok testing
  /\ collectDepsWithToolchain 5 (Some testing) [DepLibrary top]
     = Ok [top; left; base; right]
  /\ exists own, toolchainOrDefault (lib_Toolchain base) = Ok own
                 /\ ToolchainAccepts testing own = true.
Proof.
  assert (E : collectDepsWithToolchain 5 (Some testing) [DepLibrary top]
              = Ok [top; left; base; right]) by (vm_compute; reflexivity).
  split; [reflexivity|]. split; [exact E|].
  apply (@closure_is_accepted_by_requester _ gcc host process (Some testing) 5
           [DepLibrary top] [top; left; base; right] testing eq_refl E base).
  apply list_elem_of_In. cbn. tauto.
Defined.

Lemma collector_is_idempotent_witness :
  collectDepsWithToolchain 5 (Some NativeGcc) [DepLibrary top]
  = Ok [top; left; base; right]
  /\ exists enough, forall fuel', enough <= fuel' ->
       collectDepsWithToolchain fuel' (Some NativeGcc)
         (DepLibrary <$> [top; left; base; right])
       = Ok [top; left; base; right].
Proof.
  assert (E : collectDepsWithToolchain 5 (Some NativeGcc) [DepLibrary top]
              = Ok [top; left; base; right]) by (vm_compute; reflexivity).
  split; [exact E|].
  exact (@collector_is_idempotent _ gcc host process (Some NativeGcc) 5
           [DepLibrary top] [top; left; base; right] E).
Defined.



End MoreWitnesses.
